(** * The GraphQL printer of graphql-js ([src/language/printer.js])

    A shallow embedding of the rendering table [printDocASTReducer], of the
    helpers it is assembled from ([join], [block], [wrap], [indent],
    [printBlockString], [addDescription]) and of [print], followed by the
    properties of the printer.

    Strings are [string]; a field that a node may lack is an [option]; the one
    exception the table can raise (a method call on [undefined]) is the
    [Throws] outcome of [result]. *)

From Stdlib Require Import String Ascii List ZArith Bool Lia.
Import ListNotations.
Open Scope string_scope.

(* ================================================================= *)
(** ** The host language: characters, strings, truthiness, exceptions *)

Module JS.

(** The two characters the printer names by an escape sequence. *)
Definition LF : ascii := "010"%char.
Definition DQ : ascii := "034"%char.
Definition TAB : ascii := "009"%char.
Definition BACKSLASH : ascii := "092"%char.

(** The one-character string holding a line feed, and three double quotes. *)
Definition nl : string := String LF "".
Definition quote3 : string := String DQ (String DQ (String DQ "")).

(** What an expression evaluates to: a value, or a thrown exception. *)
Inductive error : Type := TypeError.

Inductive result (A : Type) : Type :=
| Returns (a : A)
| Throws (e : error).
Arguments Returns {A} a.
Arguments Throws {A} e.

Definition bind {A B} (r : result A) (k : A -> result B) : result B :=
  match r with
  | Returns a => k a
  | Throws e => Throws e
  end.

(** Values that the helpers test for truthiness and splice into text: a
    string, or a string that may be [undefined]. *)
Class MaybeString (A : Type) : Type := {
  truthy : A -> bool;
  asString : A -> string
}.

#[export] Instance string_MaybeString : MaybeString string := {
  truthy s := negb (s =? "");
  asString s := s
}.

(** [undefined] is falsy; its text is never used, since every use is guarded
    by the truthiness test. *)
#[export] Instance option_MaybeString : MaybeString (option string) := {
  truthy o := match o with Some s => negb (s =? "") | None => false end;
  asString o := match o with Some s => s | None => "undefined" end
}.

(** [s.indexOf(c)] for a one-character needle: the position of the first
    occurrence, or -1. *)
Fixpoint indexOf (s : string) (c : ascii) : Z :=
  match s with
  | EmptyString => (-1)%Z
  | String a s' =>
      if Ascii.eqb a c then 0%Z
      else let i := indexOf s' c in
           if (i =? -1)%Z then (-1)%Z else (i + 1)%Z
  end.

(** [s.replace(/c/g, by)] for a one-character pattern. *)
Fixpoint replaceAll (c : ascii) (by_ : string) (s : string) : string :=
  match s with
  | EmptyString => EmptyString
  | String a s' =>
      if Ascii.eqb a c then by_ ++ replaceAll c by_ s'
      else String a (replaceAll c by_ s')
  end.

(** [s.replace(/QQQ/g, by)] where QQQ is three double quotes: matches are
    taken left to right and do not overlap. *)
Fixpoint replaceAllQuote3 (by_ : string) (s : string) : string :=
  match s with
  | EmptyString => EmptyString
  | String a s1 =>
      match s1 with
      | String b (String c s3) =>
          if Ascii.eqb a DQ && Ascii.eqb b DQ && Ascii.eqb c DQ
          then by_ ++ replaceAllQuote3 by_ s3
          else String a (replaceAllQuote3 by_ s1)
      | _ => String a (replaceAllQuote3 by_ s1)
      end
  end.

(** [s.replace(/Q$/, by)] where Q is a double quote: without the multiline
    flag the anchor matches at the end of the input only. *)
Fixpoint replaceFinalQuote (by_ : string) (s : string) : string :=
  match s with
  | EmptyString => EmptyString
  | String a EmptyString => if Ascii.eqb a DQ then by_ else s
  | String a s' => String a (replaceFinalQuote by_ s')
  end.

(** [array.every(p)]: a method call, so it throws on [undefined]. *)
Definition every {A} (array : option (list A)) (p : A -> bool)
  : result bool :=
  match array with
  | Some a => Returns (forallb p a)
  | None => Throws TypeError
  end.

(** [JSON.stringify] on a string (QuoteJSONString of ECMA-262), for code
    units below 256. *)
Definition hexDigit (n : nat) : ascii :=
  nth n (list_ascii_of_string "0123456789abcdef") "0"%char.

Definition quoteJSONUnit (a : ascii) : string :=
  let n := nat_of_ascii a in
  if Ascii.eqb a DQ then String BACKSLASH (String DQ "")
  else if Ascii.eqb a BACKSLASH then String BACKSLASH (String BACKSLASH "")
  else if (n =? 8)%nat then String BACKSLASH "b"
  else if (n =? 9)%nat then String BACKSLASH "t"
  else if (n =? 10)%nat then String BACKSLASH "n"
  else if (n =? 12)%nat then String BACKSLASH "f"
  else if (n =? 13)%nat then String BACKSLASH "r"
  else if (n <? 32)%nat
       then String BACKSLASH
              ("u00" ++ String (hexDigit (n / 16)) (String (hexDigit (n mod 16)) ""))
  else String a "".

Fixpoint quoteJSON (s : string) : string :=
  match s with
  | EmptyString => EmptyString
  | String a s' => quoteJSONUnit a ++ quoteJSON s'
  end.

Definition JSON_stringify (value : string) : string :=
  String DQ (quoteJSON value) ++ String DQ "".

End JS.
Import JS.

Notation "x <- e ;; k" := (bind e (fun x => k))
  (at level 61, e at next level, right associativity).

(* ================================================================= *)
(** ** The string-assembly helpers *)

(** Given maybeArray, print an empty string if it is null or empty, otherwise
    print all items together separated by separator if provided.  A call
    without separator passes the empty string, which is what the code makes
    of an omitted one. *)
Definition join {A} `{MaybeString A}
  (maybeArray : option (list A)) (separator : string) : string :=
  match maybeArray with
  | Some array => String.concat separator (map asString (filter truthy array))
  | None => ""
  end.

Definition indent (maybeString : string) : string :=
  if truthy maybeString
  then "  " ++ replaceAll LF (nl ++ "  ") maybeString
  else maybeString.

(** Given array, print each item on its own line, wrapped in an indented
    brace block. *)
Definition block (array : option (list string)) : string :=
  match array with
  | Some a =>
      if negb (List.length a =? 0)%nat
      then "{" ++ nl ++ indent (join array nl) ++ nl ++ "}"
      else ""
  | None => ""
  end.

(** If maybeString is not null or empty, then wrap with start and end,
    otherwise print an empty string.  An omitted [end] is [None]. *)
Definition wrap {A} `{MaybeString A}
  (start : string) (maybeString : A) (end_ : option string) : string :=
  if truthy maybeString
  then start ++ asString maybeString
             ++ (if truthy end_ then asString end_ else "")
  else "".

(** Print a block string in the indented block form by adding a leading and
    trailing blank line.  However, if a block string starts with whitespace
    and is a single-line, adding a leading blank line would strip that
    whitespace. *)
Definition printBlockString (value : string) (isDescription : bool) : string :=
  let escaped := replaceAllQuote3 (String BACKSLASH quote3) value in
  if (match get 0 value with
      | Some c => Ascii.eqb c " "%char || Ascii.eqb c TAB
      | None => false
      end) && (indexOf value LF =? -1)%Z
  then quote3 ++ replaceFinalQuote (String DQ nl) escaped ++ quote3
  else quote3 ++ nl ++ (if isDescription then escaped else indent escaped)
              ++ nl ++ quote3.

(* ================================================================= *)
(** ** The rendering table *)

(** The operation of an operation definition: one of three keywords. *)
Inductive OperationTypeNode : Type := query | mutation | subscription.

Definition operationText (operation : OperationTypeNode) : string :=
  match operation with
  | query => "query"
  | mutation => "mutation"
  | subscription => "subscription"
  end.

(** The second argument the walker hands to a callback: the place of the node
    in its parent, which is a property name, an array index, or [undefined]
    at the root. *)
Inductive key : Type :=
| KUndefined
| KProp (name : string)
| KIndex (i : nat).

Definition key_is (k : key) (name : string) : bool :=
  match k with
  | KProp p => p =? name
  | _ => false
  end.

(** A defined string where the table builds an array that also holds fields
    which may be [undefined]. *)
Definition str (s : string) : option string := Some s.
Coercion str : string >-> option.

Definition addDescription {N : Type} (cb : N -> result string)
  : option string * N -> result string :=
  fun '(description, node) =>
    body <- cb node ;;
    Returns (join (Some [description; str body]) nl).

Module printDocASTReducer.

Definition Name (value : string) : string := value.
(* The entry for kind Variable; the bare name is a reserved word here. *)
Definition Variable_ (name : string) : string := "$" ++ name.

(* Document *)

Definition Document (definitions : option (list string)) : string :=
  join definitions (nl ++ nl) ++ nl.

Definition OperationDefinition
  '((operation, name, variableDefinitions, directives_, selectionSet)
    : OperationTypeNode * option string * option (list string)
      * option (list string) * string) : string :=
  let op := operationText operation in
  let varDefs := wrap "(" (join variableDefinitions ", ") (Some ")") in
  let directives := join directives_ " " in
  (* Anonymous queries with no directives or variable definitions can use
     the query short form. *)
  if negb (truthy name) && negb (truthy directives) && negb (truthy varDefs)
     && (op =? "query")
  then selectionSet
  else join (Some [op; join (Some [name; str varDefs]) ""; directives;
                   selectionSet]) " ".

Definition VariableDefinition
  '((variable, type, defaultValue) : string * string * option string)
  : string :=
  variable ++ ": " ++ type ++ wrap " = " defaultValue None.

Definition SelectionSet (selections : option (list string)) : string :=
  block selections.

Definition Field
  '((alias, name, args, directives, selectionSet)
    : option string * string * option (list string) * option (list string)
      * option string) : string :=
  join (Some [str (wrap "" alias (Some ": ") ++ name
                   ++ wrap "(" (join args ", ") (Some ")"));
              str (join directives " ");
              selectionSet]) " ".

Definition Argument '((name, value) : string * string) : string :=
  name ++ ": " ++ value.

(* Fragments *)

Definition FragmentSpread
  '((name, directives) : string * option (list string)) : string :=
  "..." ++ name ++ wrap " " (join directives " ") None.

Definition InlineFragment
  '((typeCondition, directives, selectionSet)
    : option string * option (list string) * string) : string :=
  join (Some ["..."; wrap "on " typeCondition None; join directives " ";
              selectionSet]) " ".

(* Note: fragment variable definitions are experimental and may be changed
   or removed in the future. *)
Definition FragmentDefinition
  '((name, typeCondition, variableDefinitions, directives, selectionSet)
    : string * string * option (list string) * option (list string) * string)
  : string :=
  "fragment " ++ name
    ++ wrap "(" (join variableDefinitions ", ") (Some ")") ++ " "
    ++ "on " ++ typeCondition ++ " "
    ++ wrap "" (join directives " ") (Some " ")
    ++ selectionSet.

(* Value *)

Definition IntValue (value : string) : string := value.
Definition FloatValue (value : string) : string := value.

Definition StringValue
  '((value, isBlockString) : string * option bool) (k : key) : string :=
  match isBlockString with
  | Some true => printBlockString value (key_is k "description")
  | _ => JSON_stringify value
  end.

Definition BooleanValue (value : bool) : string :=
  if value then "true" else "false".
Definition NullValue (_ : unit) : string := "null".
Definition EnumValue (value : string) : string := value.
Definition ListValue (values : option (list string)) : string :=
  "[" ++ join values ", " ++ "]".
Definition ObjectValue (fields : option (list string)) : string :=
  "{" ++ join fields ", " ++ "}".
Definition ObjectField '((name, value) : string * string) : string :=
  name ++ ": " ++ value.

(* Directive *)

Definition Directive
  '((name, args) : string * option (list string)) : string :=
  "@" ++ name ++ wrap "(" (join args ", ") (Some ")").

(* Type *)

Definition NamedType (name : string) : string := name.
Definition ListType (type : string) : string := "[" ++ type ++ "]".
Definition NonNullType (type : string) : string := type ++ "!".

(* Type System Definitions *)

Definition SchemaDefinition
  '((directives, operationTypes)
    : option (list string) * option (list string)) : string :=
  join (Some ["schema"; join directives " "; block operationTypes]) " ".

Definition OperationTypeDefinition
  '((operation, type) : OperationTypeNode * string) : string :=
  operationText operation ++ ": " ++ type.

Definition ScalarTypeDefinition :=
  addDescription
    (fun '((name, directives) : string * option (list string)) =>
       Returns (join (Some ["scalar"; name; join directives " "]) " ")).

Definition ObjectTypeDefinition :=
  addDescription
    (fun '((name, interfaces, directives, fields)
           : string * option (list string) * option (list string)
             * option (list string)) =>
       Returns
         (join (Some ["type";
                      name;
                      wrap "implements " (join interfaces " & ") None;
                      join directives " ";
                      block fields]) " ")).

Definition FieldDefinition :=
  addDescription
    (fun '((name, args, type, directives)
           : string * option (list string) * string * option (list string)) =>
       singleLine <- every args (fun arg => (indexOf arg LF =? -1)%Z) ;;
       Returns
         (name
          ++ (if singleLine
              then wrap "(" (join args ", ") (Some ")")
              else wrap ("(" ++ nl) (indent (join args nl)) (Some (nl ++ ")")))
          ++ ": "
          ++ type
          ++ wrap " " (join directives " ") None)).

Definition InputValueDefinition :=
  addDescription
    (fun '((name, type, defaultValue, directives)
           : string * string * option string * option (list string)) =>
       Returns
         (join (Some [name ++ ": " ++ type; wrap "= " defaultValue None;
                      join directives " "]) " ")).

Definition InterfaceTypeDefinition :=
  addDescription
    (fun '((name, directives, fields)
           : string * option (list string) * option (list string)) =>
       Returns
         (join (Some ["interface"; name; join directives " "; block fields])
               " ")).

Definition UnionTypeDefinition :=
  addDescription
    (fun '((name, directives, types)
           : string * option (list string) * option (list string)) =>
       Returns
         (join (Some ["union";
                      name;
                      join directives " ";
                      match types with
                      | Some a =>
                          if negb (List.length a =? 0)%nat
                          then "= " ++ join types " | "
                          else ""
                      | None => ""
                      end]) " ")).

Definition EnumTypeDefinition :=
  addDescription
    (fun '((name, directives, values)
           : string * option (list string) * option (list string)) =>
       Returns
         (join (Some ["enum"; name; join directives " "; block values]) " ")).

Definition EnumValueDefinition :=
  addDescription
    (fun '((name, directives) : string * option (list string)) =>
       Returns (join (Some [name; join directives " "]) " ")).

Definition InputObjectTypeDefinition :=
  addDescription
    (fun '((name, directives, fields)
           : string * option (list string) * option (list string)) =>
       Returns
         (join (Some ["input"; name; join directives " "; block fields]) " ")).

Definition DirectiveDefinition :=
  addDescription
    (fun '((name, args, locations)
           : string * option (list string) * option (list string)) =>
       singleLine <- every args (fun arg => (indexOf arg LF =? -1)%Z) ;;
       Returns
         ("directive @"
          ++ name
          ++ (if singleLine
              then wrap "(" (join args ", ") (Some ")")
              else wrap ("(" ++ nl) (indent (join args nl)) (Some (nl ++ ")")))
          ++ " on "
          ++ join locations " | ")).

Definition SchemaExtension
  '((directives, operationTypes)
    : option (list string) * option (list string)) : string :=
  join (Some ["extend schema"; join directives " "; block operationTypes]) " ".

Definition ScalarTypeExtension
  '((name, directives) : string * option (list string)) : string :=
  join (Some ["extend scalar"; name; join directives " "]) " ".

Definition ObjectTypeExtension
  '((name, interfaces, directives, fields)
    : string * option (list string) * option (list string)
      * option (list string)) : string :=
  join (Some ["extend type";
              name;
              wrap "implements " (join interfaces " & ") None;
              join directives " ";
              block fields]) " ".

Definition InterfaceTypeExtension
  '((name, directives, fields)
    : string * option (list string) * option (list string)) : string :=
  join (Some ["extend interface"; name; join directives " "; block fields])
       " ".

Definition UnionTypeExtension
  '((name, directives, types)
    : string * option (list string) * option (list string)) : string :=
  join (Some ["extend union";
              name;
              join directives " ";
              match types with
              | Some a =>
                  if negb (List.length a =? 0)%nat
                  then "= " ++ join types " | "
                  else ""
              | None => ""
              end]) " ".

Definition EnumTypeExtension
  '((name, directives, values)
    : string * option (list string) * option (list string)) : string :=
  join (Some ["extend enum"; name; join directives " "; block values]) " ".

Definition InputObjectTypeExtension
  '((name, directives, fields)
    : string * option (list string) * option (list string)) : string :=
  join (Some ["extend input"; name; join directives " "; block fields]) " ".

End printDocASTReducer.

(* ================================================================= *)
(** ** Nodes, and the table as one function over them *)

Module AST.

(** A node of each kind, over the type [C] of its children: [C] is [string]
    once the children are rendered.  A field the table reads through a helper
    that accepts [undefined] is an [option]. *)
Inductive node (C : Type) : Type :=
| Name (value : string)
| Variable_ (name : C)
| Document (definitions : option (list C))
| OperationDefinition (operation : OperationTypeNode) (name : option C)
    (variableDefinitions directives : option (list C)) (selectionSet : C)
| VariableDefinition (variable type : C) (defaultValue : option C)
| SelectionSet (selections : option (list C))
| Field (alias : option C) (name : C) (arguments directives : option (list C))
    (selectionSet : option C)
| Argument (name value : C)
| FragmentSpread (name : C) (directives : option (list C))
| InlineFragment (typeCondition : option C) (directives : option (list C))
    (selectionSet : C)
| FragmentDefinition (name typeCondition : C)
    (variableDefinitions directives : option (list C)) (selectionSet : C)
| IntValue (value : string)
| FloatValue (value : string)
| StringValue (value : string) (block : option bool)
| BooleanValue (value : bool)
| NullValue
| EnumValue (value : string)
| ListValue (values : option (list C))
| ObjectValue (fields : option (list C))
| ObjectField (name value : C)
| Directive (name : C) (arguments : option (list C))
| NamedType (name : C)
| ListType (type : C)
| NonNullType (type : C)
| SchemaDefinition (directives operationTypes : option (list C))
| OperationTypeDefinition (operation : OperationTypeNode) (type : C)
| ScalarTypeDefinition (description : option C) (name : C)
    (directives : option (list C))
| ObjectTypeDefinition (description : option C) (name : C)
    (interfaces directives fields : option (list C))
| FieldDefinition (description : option C) (name : C)
    (arguments : option (list C)) (type : C) (directives : option (list C))
| InputValueDefinition (description : option C) (name type : C)
    (defaultValue : option C) (directives : option (list C))
| InterfaceTypeDefinition (description : option C) (name : C)
    (directives fields : option (list C))
| UnionTypeDefinition (description : option C) (name : C)
    (directives types : option (list C))
| EnumTypeDefinition (description : option C) (name : C)
    (directives values : option (list C))
| EnumValueDefinition (description : option C) (name : C)
    (directives : option (list C))
| InputObjectTypeDefinition (description : option C) (name : C)
    (directives fields : option (list C))
| DirectiveDefinition (description : option C) (name : C)
    (arguments locations : option (list C))
| SchemaExtension (directives operationTypes : option (list C))
| ScalarTypeExtension (name : C) (directives : option (list C))
| ObjectTypeExtension (name : C)
    (interfaces directives fields : option (list C))
| InterfaceTypeExtension (name : C) (directives fields : option (list C))
| UnionTypeExtension (name : C) (directives types : option (list C))
| EnumTypeExtension (name : C) (directives values : option (list C))
| InputObjectTypeExtension (name : C) (directives fields : option (list C)).

End AST.

Arguments AST.Name {C}.
Arguments AST.Variable_ {C}.
Arguments AST.Document {C}.
Arguments AST.OperationDefinition {C}.
Arguments AST.VariableDefinition {C}.
Arguments AST.SelectionSet {C}.
Arguments AST.Field {C}.
Arguments AST.Argument {C}.
Arguments AST.FragmentSpread {C}.
Arguments AST.InlineFragment {C}.
Arguments AST.FragmentDefinition {C}.
Arguments AST.IntValue {C}.
Arguments AST.FloatValue {C}.
Arguments AST.StringValue {C}.
Arguments AST.BooleanValue {C}.
Arguments AST.NullValue {C}.
Arguments AST.EnumValue {C}.
Arguments AST.ListValue {C}.
Arguments AST.ObjectValue {C}.
Arguments AST.ObjectField {C}.
Arguments AST.Directive {C}.
Arguments AST.NamedType {C}.
Arguments AST.ListType {C}.
Arguments AST.NonNullType {C}.
Arguments AST.SchemaDefinition {C}.
Arguments AST.OperationTypeDefinition {C}.
Arguments AST.ScalarTypeDefinition {C}.
Arguments AST.ObjectTypeDefinition {C}.
Arguments AST.FieldDefinition {C}.
Arguments AST.InputValueDefinition {C}.
Arguments AST.InterfaceTypeDefinition {C}.
Arguments AST.UnionTypeDefinition {C}.
Arguments AST.EnumTypeDefinition {C}.
Arguments AST.EnumValueDefinition {C}.
Arguments AST.InputObjectTypeDefinition {C}.
Arguments AST.DirectiveDefinition {C}.
Arguments AST.SchemaExtension {C}.
Arguments AST.ScalarTypeExtension {C}.
Arguments AST.ObjectTypeExtension {C}.
Arguments AST.InterfaceTypeExtension {C}.
Arguments AST.UnionTypeExtension {C}.
Arguments AST.EnumTypeExtension {C}.
Arguments AST.InputObjectTypeExtension {C}.

(** Induction over trees goes through the lists and options of a node. *)
Scheme All for list.
Scheme All for option.
Scheme All for AST.node.

(** A syntax tree: a node whose children are trees. *)
Inductive ast : Type :=
| Node (n : AST.node ast).

(** The table, looked up by the kind of a node whose children are rendered:
    the [leave] callback that [print] hands to the walker. *)
Definition leave (n : AST.node string) (k : key) : result string :=
  match n with
  | AST.Name value => Returns (printDocASTReducer.Name value)
  | AST.Variable_ name => Returns (printDocASTReducer.Variable_ name)
  | AST.Document definitions =>
      Returns (printDocASTReducer.Document definitions)
  | AST.OperationDefinition operation name variableDefinitions directives
      selectionSet =>
      Returns (printDocASTReducer.OperationDefinition
                 (operation, name, variableDefinitions, directives,
                  selectionSet))
  | AST.VariableDefinition variable type defaultValue =>
      Returns (printDocASTReducer.VariableDefinition
                 (variable, type, defaultValue))
  | AST.SelectionSet selections =>
      Returns (printDocASTReducer.SelectionSet selections)
  | AST.Field alias name args directives selectionSet =>
      Returns (printDocASTReducer.Field
                 (alias, name, args, directives, selectionSet))
  | AST.Argument name value =>
      Returns (printDocASTReducer.Argument (name, value))
  | AST.FragmentSpread name directives =>
      Returns (printDocASTReducer.FragmentSpread (name, directives))
  | AST.InlineFragment typeCondition directives selectionSet =>
      Returns (printDocASTReducer.InlineFragment
                 (typeCondition, directives, selectionSet))
  | AST.FragmentDefinition name typeCondition variableDefinitions directives
      selectionSet =>
      Returns (printDocASTReducer.FragmentDefinition
                 (name, typeCondition, variableDefinitions, directives,
                  selectionSet))
  | AST.IntValue value => Returns (printDocASTReducer.IntValue value)
  | AST.FloatValue value => Returns (printDocASTReducer.FloatValue value)
  | AST.StringValue value isBlockString =>
      Returns (printDocASTReducer.StringValue (value, isBlockString) k)
  | AST.BooleanValue value => Returns (printDocASTReducer.BooleanValue value)
  | AST.NullValue => Returns (printDocASTReducer.NullValue tt)
  | AST.EnumValue value => Returns (printDocASTReducer.EnumValue value)
  | AST.ListValue values => Returns (printDocASTReducer.ListValue values)
  | AST.ObjectValue fields => Returns (printDocASTReducer.ObjectValue fields)
  | AST.ObjectField name value =>
      Returns (printDocASTReducer.ObjectField (name, value))
  | AST.Directive name args =>
      Returns (printDocASTReducer.Directive (name, args))
  | AST.NamedType name => Returns (printDocASTReducer.NamedType name)
  | AST.ListType type => Returns (printDocASTReducer.ListType type)
  | AST.NonNullType type => Returns (printDocASTReducer.NonNullType type)
  | AST.SchemaDefinition directives operationTypes =>
      Returns (printDocASTReducer.SchemaDefinition (directives, operationTypes))
  | AST.OperationTypeDefinition operation type =>
      Returns (printDocASTReducer.OperationTypeDefinition (operation, type))
  | AST.ScalarTypeDefinition description name directives =>
      printDocASTReducer.ScalarTypeDefinition (description, (name, directives))
  | AST.ObjectTypeDefinition description name interfaces directives fields =>
      printDocASTReducer.ObjectTypeDefinition
        (description, (name, interfaces, directives, fields))
  | AST.FieldDefinition description name args type directives =>
      printDocASTReducer.FieldDefinition
        (description, (name, args, type, directives))
  | AST.InputValueDefinition description name type defaultValue directives =>
      printDocASTReducer.InputValueDefinition
        (description, (name, type, defaultValue, directives))
  | AST.InterfaceTypeDefinition description name directives fields =>
      printDocASTReducer.InterfaceTypeDefinition
        (description, (name, directives, fields))
  | AST.UnionTypeDefinition description name directives types =>
      printDocASTReducer.UnionTypeDefinition
        (description, (name, directives, types))
  | AST.EnumTypeDefinition description name directives values =>
      printDocASTReducer.EnumTypeDefinition
        (description, (name, directives, values))
  | AST.EnumValueDefinition description name directives =>
      printDocASTReducer.EnumValueDefinition (description, (name, directives))
  | AST.InputObjectTypeDefinition description name directives fields =>
      printDocASTReducer.InputObjectTypeDefinition
        (description, (name, directives, fields))
  | AST.DirectiveDefinition description name args locations =>
      printDocASTReducer.DirectiveDefinition
        (description, (name, args, locations))
  | AST.SchemaExtension directives operationTypes =>
      Returns (printDocASTReducer.SchemaExtension (directives, operationTypes))
  | AST.ScalarTypeExtension name directives =>
      Returns (printDocASTReducer.ScalarTypeExtension (name, directives))
  | AST.ObjectTypeExtension name interfaces directives fields =>
      Returns (printDocASTReducer.ObjectTypeExtension
                 (name, interfaces, directives, fields))
  | AST.InterfaceTypeExtension name directives fields =>
      Returns (printDocASTReducer.InterfaceTypeExtension
                 (name, directives, fields))
  | AST.UnionTypeExtension name directives types =>
      Returns (printDocASTReducer.UnionTypeExtension (name, directives, types))
  | AST.EnumTypeExtension name directives values =>
      Returns (printDocASTReducer.EnumTypeExtension (name, directives, values))
  | AST.InputObjectTypeExtension name directives fields =>
      Returns (printDocASTReducer.InputObjectTypeExtension
                 (name, directives, fields))
  end.

(* ================================================================= *)
(** ** The walker and [print] *)

Section Walk.

Context {C D : Type}.

(** The walker's visit of each child of a node, in the order of the node's
    fields: [f] receives the place of the child (the property name of a single
    child, the index of a member of a sequence) and the child. *)
Variable f : key -> C -> result D.

Definition visitChild (name : string) (c : C) : result D :=
  f (KProp name) c.

Definition visitOptional (name : string) (o : option C)
  : result (option D) :=
  match o with
  | Some c => d <- f (KProp name) c ;; Returns (Some d)
  | None => Returns None
  end.

Fixpoint visitArrayFrom (i : nat) (array : list C) {struct array}
  : result (list D) :=
  match array with
  | [] => Returns []
  | c :: cs =>
      d <- f (KIndex i) c ;;
      ds <- visitArrayFrom (S i) cs ;;
      Returns (d :: ds)
  end.

Definition visitArray (array : list C) : result (list D) :=
  visitArrayFrom 0 array.

Definition visitChildren (o : option (list C)) : result (option (list D)) :=
  match o with
  | Some array => ds <- visitArray array ;; Returns (Some ds)
  | None => Returns None
  end.

Definition traverse (n : AST.node C) : result (AST.node D) :=
  match n with
  | AST.Name value => Returns (AST.Name value)
  | AST.Variable_ name =>
      name <- visitChild "name" name ;; Returns (AST.Variable_ name)
  | AST.Document definitions =>
      definitions <- visitChildren definitions ;;
      Returns (AST.Document definitions)
  | AST.OperationDefinition operation name variableDefinitions directives
      selectionSet =>
      name <- visitOptional "name" name ;;
      variableDefinitions <- visitChildren variableDefinitions ;;
      directives <- visitChildren directives ;;
      selectionSet <- visitChild "selectionSet" selectionSet ;;
      Returns (AST.OperationDefinition operation name variableDefinitions
                 directives selectionSet)
  | AST.VariableDefinition variable type defaultValue =>
      variable <- visitChild "variable" variable ;;
      type <- visitChild "type" type ;;
      defaultValue <- visitOptional "defaultValue" defaultValue ;;
      Returns (AST.VariableDefinition variable type defaultValue)
  | AST.SelectionSet selections =>
      selections <- visitChildren selections ;;
      Returns (AST.SelectionSet selections)
  | AST.Field alias name args directives selectionSet =>
      alias <- visitOptional "alias" alias ;;
      name <- visitChild "name" name ;;
      args <- visitChildren args ;;
      directives <- visitChildren directives ;;
      selectionSet <- visitOptional "selectionSet" selectionSet ;;
      Returns (AST.Field alias name args directives selectionSet)
  | AST.Argument name value =>
      name <- visitChild "name" name ;;
      value <- visitChild "value" value ;;
      Returns (AST.Argument name value)
  | AST.FragmentSpread name directives =>
      name <- visitChild "name" name ;;
      directives <- visitChildren directives ;;
      Returns (AST.FragmentSpread name directives)
  | AST.InlineFragment typeCondition directives selectionSet =>
      typeCondition <- visitOptional "typeCondition" typeCondition ;;
      directives <- visitChildren directives ;;
      selectionSet <- visitChild "selectionSet" selectionSet ;;
      Returns (AST.InlineFragment typeCondition directives selectionSet)
  | AST.FragmentDefinition name typeCondition variableDefinitions directives
      selectionSet =>
      name <- visitChild "name" name ;;
      variableDefinitions <- visitChildren variableDefinitions ;;
      typeCondition <- visitChild "typeCondition" typeCondition ;;
      directives <- visitChildren directives ;;
      selectionSet <- visitChild "selectionSet" selectionSet ;;
      Returns (AST.FragmentDefinition name typeCondition variableDefinitions
                 directives selectionSet)
  | AST.IntValue value => Returns (AST.IntValue value)
  | AST.FloatValue value => Returns (AST.FloatValue value)
  | AST.StringValue value isBlockString =>
      Returns (AST.StringValue value isBlockString)
  | AST.BooleanValue value => Returns (AST.BooleanValue value)
  | AST.NullValue => Returns AST.NullValue
  | AST.EnumValue value => Returns (AST.EnumValue value)
  | AST.ListValue values =>
      values <- visitChildren values ;; Returns (AST.ListValue values)
  | AST.ObjectValue fields =>
      fields <- visitChildren fields ;; Returns (AST.ObjectValue fields)
  | AST.ObjectField name value =>
      name <- visitChild "name" name ;;
      value <- visitChild "value" value ;;
      Returns (AST.ObjectField name value)
  | AST.Directive name args =>
      name <- visitChild "name" name ;;
      args <- visitChildren args ;;
      Returns (AST.Directive name args)
  | AST.NamedType name =>
      name <- visitChild "name" name ;; Returns (AST.NamedType name)
  | AST.ListType type =>
      type <- visitChild "type" type ;; Returns (AST.ListType type)
  | AST.NonNullType type =>
      type <- visitChild "type" type ;; Returns (AST.NonNullType type)
  | AST.SchemaDefinition directives operationTypes =>
      directives <- visitChildren directives ;;
      operationTypes <- visitChildren operationTypes ;;
      Returns (AST.SchemaDefinition directives operationTypes)
  | AST.OperationTypeDefinition operation type =>
      type <- visitChild "type" type ;;
      Returns (AST.OperationTypeDefinition operation type)
  | AST.ScalarTypeDefinition description name directives =>
      description <- visitOptional "description" description ;;
      name <- visitChild "name" name ;;
      directives <- visitChildren directives ;;
      Returns (AST.ScalarTypeDefinition description name directives)
  | AST.ObjectTypeDefinition description name interfaces directives fields =>
      description <- visitOptional "description" description ;;
      name <- visitChild "name" name ;;
      interfaces <- visitChildren interfaces ;;
      directives <- visitChildren directives ;;
      fields <- visitChildren fields ;;
      Returns (AST.ObjectTypeDefinition description name interfaces directives
                 fields)
  | AST.FieldDefinition description name args type directives =>
      description <- visitOptional "description" description ;;
      name <- visitChild "name" name ;;
      args <- visitChildren args ;;
      type <- visitChild "type" type ;;
      directives <- visitChildren directives ;;
      Returns (AST.FieldDefinition description name args type directives)
  | AST.InputValueDefinition description name type defaultValue directives =>
      description <- visitOptional "description" description ;;
      name <- visitChild "name" name ;;
      type <- visitChild "type" type ;;
      defaultValue <- visitOptional "defaultValue" defaultValue ;;
      directives <- visitChildren directives ;;
      Returns (AST.InputValueDefinition description name type defaultValue
                 directives)
  | AST.InterfaceTypeDefinition description name directives fields =>
      description <- visitOptional "description" description ;;
      name <- visitChild "name" name ;;
      directives <- visitChildren directives ;;
      fields <- visitChildren fields ;;
      Returns (AST.InterfaceTypeDefinition description name directives fields)
  | AST.UnionTypeDefinition description name directives types =>
      description <- visitOptional "description" description ;;
      name <- visitChild "name" name ;;
      directives <- visitChildren directives ;;
      types <- visitChildren types ;;
      Returns (AST.UnionTypeDefinition description name directives types)
  | AST.EnumTypeDefinition description name directives values =>
      description <- visitOptional "description" description ;;
      name <- visitChild "name" name ;;
      directives <- visitChildren directives ;;
      values <- visitChildren values ;;
      Returns (AST.EnumTypeDefinition description name directives values)
  | AST.EnumValueDefinition description name directives =>
      description <- visitOptional "description" description ;;
      name <- visitChild "name" name ;;
      directives <- visitChildren directives ;;
      Returns (AST.EnumValueDefinition description name directives)
  | AST.InputObjectTypeDefinition description name directives fields =>
      description <- visitOptional "description" description ;;
      name <- visitChild "name" name ;;
      directives <- visitChildren directives ;;
      fields <- visitChildren fields ;;
      Returns (AST.InputObjectTypeDefinition description name directives
                 fields)
  | AST.DirectiveDefinition description name args locations =>
      description <- visitOptional "description" description ;;
      name <- visitChild "name" name ;;
      args <- visitChildren args ;;
      locations <- visitChildren locations ;;
      Returns (AST.DirectiveDefinition description name args locations)
  | AST.SchemaExtension directives operationTypes =>
      directives <- visitChildren directives ;;
      operationTypes <- visitChildren operationTypes ;;
      Returns (AST.SchemaExtension directives operationTypes)
  | AST.ScalarTypeExtension name directives =>
      name <- visitChild "name" name ;;
      directives <- visitChildren directives ;;
      Returns (AST.ScalarTypeExtension name directives)
  | AST.ObjectTypeExtension name interfaces directives fields =>
      name <- visitChild "name" name ;;
      interfaces <- visitChildren interfaces ;;
      directives <- visitChildren directives ;;
      fields <- visitChildren fields ;;
      Returns (AST.ObjectTypeExtension name interfaces directives fields)
  | AST.InterfaceTypeExtension name directives fields =>
      name <- visitChild "name" name ;;
      directives <- visitChildren directives ;;
      fields <- visitChildren fields ;;
      Returns (AST.InterfaceTypeExtension name directives fields)
  | AST.UnionTypeExtension name directives types =>
      name <- visitChild "name" name ;;
      directives <- visitChildren directives ;;
      types <- visitChildren types ;;
      Returns (AST.UnionTypeExtension name directives types)
  | AST.EnumTypeExtension name directives values =>
      name <- visitChild "name" name ;;
      directives <- visitChildren directives ;;
      values <- visitChildren values ;;
      Returns (AST.EnumTypeExtension name directives values)
  | AST.InputObjectTypeExtension name directives fields =>
      name <- visitChild "name" name ;;
      directives <- visitChildren directives ;;
      fields <- visitChildren fields ;;
      Returns (AST.InputObjectTypeExtension name directives fields)
  end.

End Walk.

(** Modelled from the spec: the tree walker [visit] of [./visitor], which
    [print] imports and whose source is not part of this development.  It
    walks depth first and calls the [leave] callback of a node post-order,
    on the node with every child replaced by what the callback returned for
    it, together with the place of the node in its parent; an exception
    raised by a callback ends the walk. *)
Fixpoint walk (leave_ : AST.node string -> key -> result string)
  (k : key) (root : ast) : result string :=
  match root with
  | Node n =>
      rendered <- traverse (walk leave_) n ;;
      leave_ rendered k
  end.

Definition visit (root : ast)
  (leave_ : AST.node string -> key -> result string) : result string :=
  walk leave_ KUndefined root.

(** Converts an AST into a string, using one set of reasonable formatting
    rules. *)
Definition print (root : ast) : result string :=
  visit root leave.

(* ================================================================= *)
(** ** Vocabulary of the properties *)

(** The text splits into lines at each line feed: one line more than there
    are line feeds. *)
Fixpoint splitLF (s : string) : list string :=
  match s with
  | EmptyString => [EmptyString]
  | String a s' =>
      if Ascii.eqb a LF then EmptyString :: splitLF s'
      else match splitLF s' with
           | l :: ls => String a l :: ls
           | [] => [String a EmptyString]
           end
  end.

(** The lines of a text; the empty text has no line. *)
Definition lines (s : string) : list string :=
  match s with
  | EmptyString => []
  | _ => splitLF s
  end.

(** Every line of the text, indented by two spaces. *)
Definition indentLines (s : string) : string :=
  String.concat nl (map (append "  ") (lines s)).

Definition nonEmpty (s : string) : bool := negb (s =? "").

(** The text holds a line feed. *)
Definition multiLine (s : string) : Prop := In LF (list_ascii_of_string s).

(** The text ends with a double quote. *)
Definition endsWithQuote (s : string) : Prop :=
  exists body, s = body ++ String DQ "".

(** The test for it. *)
Fixpoint lastIsQuote (s : string) : bool :=
  match s with
  | EmptyString => false
  | String a EmptyString => Ascii.eqb a DQ
  | String _ s' => lastIsQuote s'
  end.

(** The text starts with a space or a tab. *)
Definition startsBlank (s : string) : Prop :=
  exists rest, s = String " "%char rest \/ s = String TAB rest.

(** The members of a sequence that contribute text: none when the sequence
    is absent, and no member that is the empty string. *)
Definition present (maybeArray : option (list string)) : list string :=
  match maybeArray with
  | Some array => filter nonEmpty array
  | None => []
  end.

(** The text of a field that may be absent. *)
Definition textOf (maybeString : option string) : string :=
  match maybeString with
  | Some s => s
  | None => ""
  end.

(** A field that is absent or holds the empty string. *)
Definition absentOrEmpty (maybeString : option string) : Prop :=
  maybeString = None \/ maybeString = Some "".

(** Items separated by commas between parentheses; nothing for no item. *)
Definition parenthesized (items : list string) : string :=
  match items with
  | [] => ""
  | _ => "(" ++ String.concat ", " items ++ ")"
  end.

(** The parts put one after the other, the empty ones left out, with the
    separator between a part and what follows it when both have a text. *)
Fixpoint joined (separator : string) (parts : list string) : string :=
  match parts with
  | [] => ""
  | part :: rest =>
      let text := joined separator rest in
      if nonEmpty part
      then if nonEmpty text then part ++ separator ++ text else part
      else text
  end.

(** The parts that are not empty, with one space between neighbours. *)
Definition spaced (parts : list string) : string := joined " " parts.

(** Two runs of a walker yield the same outcome on a tree, at every place. *)
Definition agree (run1 run2 : key -> ast -> result string) (c : ast) : Prop :=
  forall k, run1 k c = run2 k c.

(** A field definition or a directive definition whose argument list is
    absent. *)
Definition lacksArguments (n : AST.node string) : bool :=
  match n with
  | AST.FieldDefinition _ _ None _ _ => true
  | AST.DirectiveDefinition _ _ None _ => true
  | _ => false
  end.

(** A run of a walker over a tree, as the printer relies on it: it yields,
    for a node at place [k], what the table returns for the node once each
    child is replaced by what the run yields for it, and it stops at the
    first exception. *)
Definition postOrder (run : key -> ast -> result string) : Prop :=
  forall (k : key) (n : AST.node ast),
    run k (Node n) = (rendered <- traverse run n ;; leave rendered k).

(** The alias of a field as it stands before the name: followed by a colon
    and a space, or nothing when there is no alias. *)
Definition labelled (alias : option string) : string :=
  match alias with
  | Some a => if nonEmpty a then a ++ ": " else ""
  | None => ""
  end.

(** The text without the two characters that follow each line feed. *)
Fixpoint dropIndentAfterLF (s : string) : string :=
  match s with
  | EmptyString => EmptyString
  | String a s' =>
      String a
        (if Ascii.eqb a LF
         then match s' with
              | String _ (String _ s'') => dropIndentAfterLF s''
              | _ => dropIndentAfterLF s'
              end
         else dropIndentAfterLF s')
  end.

(** The text without its first two characters and without the two characters
    that follow each line feed: what undoes an indentation. *)
Definition dedent (s : string) : string :=
  match s with
  | String _ (String _ rest) => dropIndentAfterLF rest
  | _ => s
  end.

(** The text with each backslash that stands before three double quotes
    taken out, matches taken left to right: what undoes the escaping of a
    block string. *)
Fixpoint unescapeQuote3 (s : string) : string :=
  match s with
  | EmptyString => EmptyString
  | String a s1 =>
      match s1 with
      | String b (String c (String d s4)) =>
          if Ascii.eqb a BACKSLASH && Ascii.eqb b DQ && Ascii.eqb c DQ
             && Ascii.eqb d DQ
          then quote3 ++ unescapeQuote3 s4
          else String a (unescapeQuote3 s1)
      | _ => String a (unescapeQuote3 s1)
      end
  end.

(** A character that is not a control character. *)
Definition printable (c : ascii) : bool := (32 <=? nat_of_ascii c)%nat.

(** [escapedTripleQuotes value escaped]: [escaped] is [value] with a
    backslash put before each run of three double quotes, the runs taken from
    the left and not overlapping, and nothing else changed. *)
Inductive escapedTripleQuotes : string -> string -> Prop :=
| escaped_end : escapedTripleQuotes "" ""
| escaped_quote3 (s e : string) :
    escapedTripleQuotes s e ->
    escapedTripleQuotes (quote3 ++ s) (String BACKSLASH quote3 ++ e)
| escaped_other (a : ascii) (s e : string) :
    (forall rest, String a s <> quote3 ++ rest) ->
    escapedTripleQuotes s e ->
    escapedTripleQuotes (String a s) (String a e).

(* ================================================================= *)
(** ** Strings *)

Lemma append_nil_r (s : string) : s ++ "" = s.
Proof. induction s as [|a s IH]; simpl; [reflexivity | now rewrite IH]. Qed.

Lemma append_assoc (s t u : string) : (s ++ t) ++ u = s ++ t ++ u.
Proof. induction s as [|a s IH]; simpl; [reflexivity | now rewrite IH]. Qed.

Lemma append_eq_nil (s t : string) : s ++ t = "" -> s = "" /\ t = "".
Proof. destruct s; simpl; [auto | discriminate]. Qed.

Lemma nonEmpty_true (s : string) : nonEmpty s = true <-> s <> "".
Proof.
  unfold nonEmpty. destruct (String.eqb_spec s ""); simpl; split; congruence.
Qed.

Lemma nonEmpty_false (s : string) : nonEmpty s = false <-> s = "".
Proof.
  unfold nonEmpty. destruct (String.eqb_spec s ""); simpl; split; congruence.
Qed.

Lemma concat_cons_prefix (sep p h : string) (t : list string) :
  String.concat sep ((p ++ h) :: t) = p ++ String.concat sep (h :: t).
Proof. destruct t; simpl; [reflexivity | now rewrite append_assoc]. Qed.

Lemma concat_cons_cons (sep a b : string) (t : list string) :
  String.concat sep (a :: b :: t) = a ++ sep ++ String.concat sep (b :: t).
Proof. reflexivity. Qed.

Lemma concat_eq_nil (sep : string) (l : list string) :
  Forall (fun m => m <> "") l -> String.concat sep l = "" -> l = [].
Proof.
  intros Hl. destruct Hl as [|a l Ha Hl]; [reflexivity|].
  destruct l; simpl; intros E; [contradiction|].
  apply append_eq_nil in E. destruct E; contradiction.
Qed.

(** *** [indexOf] *)

Lemma indexOf_lower (s : string) (c : ascii) : (-1 <= indexOf s c)%Z.
Proof.
  induction s as [|a s IH]; simpl; [lia|].
  destruct (Ascii.eqb a c); [lia|].
  destruct (Z.eqb_spec (indexOf s c) (-1)); lia.
Qed.

Lemma indexOf_absent (s : string) (c : ascii) :
  indexOf s c = (-1)%Z <-> ~ In c (list_ascii_of_string s).
Proof.
  induction s as [|a s IH]; simpl.
  - split; [intros _ []| reflexivity].
  - destruct (Ascii.eqb_spec a c) as [->|Hne].
    + split; [discriminate | intros H; exfalso; apply H; now left].
    + pose proof (indexOf_lower s c) as Hlow.
      destruct (Z.eqb_spec (indexOf s c) (-1)) as [E|E].
      * split; [|reflexivity]. intros _ [H|H]; [congruence|].
        now apply IH in H.
      * split; [lia|]. intros H. exfalso. apply E, IH.
        intros Hin. apply H. now right.
Qed.

Lemma singleLine_test (s : string) :
  (indexOf s LF =? -1)%Z = true <-> ~ multiLine s.
Proof. rewrite Z.eqb_eq. apply indexOf_absent. Qed.

Lemma every_singleLine (l : list string) :
  forallb (fun arg => (indexOf arg LF =? -1)%Z) l = true
  <-> Forall (fun arg => ~ multiLine arg) l.
Proof.
  rewrite forallb_forall, Forall_forall.
  split; intros H x Hx; apply singleLine_test, H, Hx.
Qed.

Lemma some_multiLine (l : list string) :
  forallb (fun arg => (indexOf arg LF =? -1)%Z) l = false
  <-> Exists multiLine l.
Proof.
  split.
  - intros H. induction l as [|a l IH]; simpl in H; [discriminate|].
    apply andb_false_iff in H. destruct H as [H|H].
    + left. destruct (in_dec ascii_dec LF (list_ascii_of_string a)) as [i|n];
        [exact i|].
      apply singleLine_test in n. congruence.
    + right. auto.
  - intros H. destruct (forallb _ l) eqn:E; [|reflexivity].
    apply every_singleLine in E. rewrite Forall_forall in E.
    apply Exists_exists in H. destruct H as (x & Hx & Hm).
    exfalso. exact (E x Hx Hm).
Qed.

(** *** [replace] and the lines of a text *)

Lemma splitLF_not_nil (s : string) : splitLF s <> [].
Proof.
  induction s as [|a s IH]; simpl; [discriminate|].
  destruct (Ascii.eqb a LF); [discriminate|].
  destruct (splitLF s); discriminate.
Qed.

Lemma replaceAll_lines (s : string) :
  replaceAll LF (nl ++ "  ") s
  = match splitLF s with
    | l :: ls => String.concat nl (l :: map (append "  ") ls)
    | [] => ""
    end.
Proof.
  induction s as [|a s IH]; [reflexivity|].
  pose proof (splitLF_not_nil s) as Hne.
  cbn [replaceAll splitLF].
  destruct (Ascii.eqb a LF).
  - rewrite IH. destruct (splitLF s) as [|l ls]; [contradiction|].
    change (map (append "  ") (l :: ls))
      with (("  " ++ l) :: map (append "  ") ls).
    rewrite concat_cons_cons, concat_cons_prefix, append_assoc. reflexivity.
  - rewrite IH. destruct (splitLF s) as [|l ls]; [contradiction|].
    change (String a l) with (String a "" ++ l).
    rewrite concat_cons_prefix. reflexivity.
Qed.

(** [indent] prefixes every line of its argument with two spaces. *)
Lemma indent_lines (s : string) : indent s = indentLines s.
Proof.
  unfold indent, indentLines, lines. destruct s as [|a s]; [reflexivity|].
  change (truthy (String a s)) with true. cbv iota.
  rewrite replaceAll_lines.
  pose proof (splitLF_not_nil (String a s)) as Hne.
  destruct (splitLF (String a s)) as [|l ls]; [contradiction|].
  change (map (append "  ") (l :: ls))
    with (("  " ++ l) :: map (append "  ") ls).
  now rewrite concat_cons_prefix.
Qed.

Lemma replaceAll_app (c : ascii) (by_ s t : string) :
  replaceAll c by_ (s ++ t) = replaceAll c by_ s ++ replaceAll c by_ t.
Proof.
  induction s as [|a s IH]; simpl; [reflexivity|].
  destruct (Ascii.eqb a c); rewrite IH; [now rewrite append_assoc|reflexivity].
Qed.

Lemma indent_nonEmpty (s : string) :
  s <> "" -> indent s = "  " ++ replaceAll LF (nl ++ "  ") s.
Proof. destruct s; [contradiction | reflexivity]. Qed.

Lemma indent_not_nil (s : string) : s <> "" -> indent s <> "".
Proof. intros H. rewrite (indent_nonEmpty s H). discriminate. Qed.

(** Indenting texts joined by line feeds indents each of them. *)
Lemma indent_concat (l : list string) :
  Forall (fun m => m <> "") l ->
  indent (String.concat nl l) = String.concat nl (map indent l).
Proof.
  induction 1 as [|a l Ha Hl IH]; [reflexivity|].
  destruct l as [|b l]; [reflexivity|].
  rewrite concat_cons_cons.
  change (map indent (a :: b :: l)) with (indent a :: map indent (b :: l)).
  change (String.concat nl (indent a :: map indent (b :: l)))
    with (indent a ++ nl ++ String.concat nl (map indent (b :: l))).
  rewrite <- IH.
  assert (Hrest : String.concat nl (b :: l) <> "").
  { intros E. apply concat_eq_nil in E; [discriminate | exact Hl]. }
  rewrite (indent_nonEmpty _ Hrest), (indent_nonEmpty a Ha).
  rewrite indent_nonEmpty.
  - rewrite !replaceAll_app. reflexivity.
  - intros E. apply append_eq_nil in E. destruct E; contradiction.
Qed.

(** *** [join] *)

Lemma map_asString (l : list string) : map asString l = l.
Proof.
  induction l as [|a l IH]; [reflexivity|].
  cbn [map]. rewrite IH. reflexivity.
Qed.

(** [join] keeps the members that are not empty and puts the separator
    between them. *)
Lemma join_present (maybeArray : option (list string)) (separator : string) :
  join maybeArray separator = String.concat separator (present maybeArray).
Proof.
  destruct maybeArray as [array|]; [|reflexivity].
  unfold join, present. rewrite map_asString. reflexivity.
Qed.

Lemma filter_all (l : list string) :
  Forall (fun m => m <> "") l -> filter nonEmpty l = l.
Proof.
  induction 1 as [|a l Ha Hl IH]; simpl; [reflexivity|].
  apply nonEmpty_true in Ha. now rewrite Ha, IH.
Qed.

Lemma filter_none (l : list string) :
  Forall (fun m => m = "") l -> filter nonEmpty l = [].
Proof.
  induction 1 as [|a l Ha Hl IH]; simpl; [reflexivity|].
  apply nonEmpty_false in Ha. now rewrite Ha, IH.
Qed.

Lemma filter_nonEmpty (l : list string) :
  Forall (fun m => m <> "") (filter nonEmpty l).
Proof.
  apply Forall_forall. intros x Hx. apply filter_In in Hx.
  now apply nonEmpty_true.
Qed.

(** Dropping the empty parts and separating the others is [joined]. *)
Lemma concat_filter_joined (separator : string) (l : list string) :
  String.concat separator (filter nonEmpty l) = joined separator l.
Proof.
  induction l as [|a l IH]; [reflexivity|].
  cbn [filter joined]. rewrite <- IH.
  destruct (nonEmpty a); [|reflexivity].
  pose proof (filter_nonEmpty l) as Hall.
  destruct (filter nonEmpty l) as [|b r] eqn:E; [reflexivity|].
  rewrite concat_cons_cons.
  assert (H : nonEmpty (String.concat separator (b :: r)) = true).
  { apply nonEmpty_true. intros C. apply concat_eq_nil in C; congruence. }
  now rewrite H.
Qed.

Lemma join_joined (l : list string) (separator : string) :
  join (Some l) separator = joined separator l.
Proof. rewrite join_present. apply concat_filter_joined. Qed.

Lemma join_all (l : list string) (separator : string) :
  Forall (fun m => m <> "") l ->
  join (Some l) separator = String.concat separator l.
Proof. intros H. rewrite join_present. simpl. now rewrite filter_all. Qed.

Lemma replaceFinalQuote_quote (by_ body : string) :
  replaceFinalQuote by_ (body ++ String DQ "") = body ++ by_.
Proof.
  induction body as [|a body IH]; [reflexivity|].
  cbn [append replaceFinalQuote].
  destruct (body ++ String DQ "") eqn:E.
  - apply append_eq_nil in E. destruct E; discriminate.
  - now rewrite IH.
Qed.

Lemma replaceFinalQuote_other (by_ s : string) :
  ~ endsWithQuote s -> replaceFinalQuote by_ s = s.
Proof.
  induction s as [|a s IH]; intros H; [reflexivity|].
  cbn [replaceFinalQuote]. destruct s as [|b s].
  - destruct (Ascii.eqb_spec a DQ) as [->|]; [|reflexivity].
    exfalso. apply H. now exists "".
  - rewrite IH; [reflexivity|].
    intros [body E]. apply H. exists (String a body). simpl. now rewrite E.
Qed.

Lemma endsWithQuote_test (s : string) :
  lastIsQuote s = true <-> endsWithQuote s.
Proof.
  split.
  - induction s as [|a s IH]; [discriminate|].
    cbn [lastIsQuote]. destruct s as [|b s].
    + intros H. apply Ascii.eqb_eq in H. subst a. now exists "".
    + intros H. destruct (IH H) as [body E].
      exists (String a body). simpl. now rewrite E.
  - intros [body ->]. induction body as [|a body IH]; [reflexivity|].
    cbn [append lastIsQuote].
    destruct (body ++ String DQ "") eqn:E; [|exact IH].
    apply append_eq_nil in E. destruct E; discriminate.
Qed.

Lemma startsBlank_test (value : string) :
  match get 0 value with
  | Some c => Ascii.eqb c " "%char || Ascii.eqb c TAB
  | None => false
  end = true <-> startsBlank value.
Proof.
  destruct value as [|c rest]; simpl.
  - split; [discriminate|]. intros [rest [E|E]]; discriminate.
  - rewrite orb_true_iff, !Ascii.eqb_eq. split.
    + intros [->| ->]; exists rest; auto.
    + intros [rest' [E|E]]; injection E; auto.
Qed.

(* ================================================================= *)
(** ** Sample renderings *)

Example replace_four_quotes :
  replaceAllQuote3 (String BACKSLASH quote3) (quote3 ++ String DQ "")
  = String BACKSLASH quote3 ++ String DQ "".
Proof. reflexivity. Qed.

Example stringify_escapes :
  JSON_stringify ("a" ++ String DQ "b" ++ nl ++ String "001"%char "c")
  = String DQ "a" ++ String BACKSLASH (String DQ "b")
    ++ String BACKSLASH "n" ++ String BACKSLASH "u0001c" ++ String DQ "".
Proof. reflexivity. Qed.

Example block_string_of_a_word :
  printBlockString "hello" false = quote3 ++ nl ++ "  hello" ++ nl ++ quote3
  /\ printBlockString "hello" true = quote3 ++ nl ++ "hello" ++ nl ++ quote3.
Proof. split; reflexivity. Qed.

Example field_with_alias_and_arguments :
  printDocASTReducer.Field
    (Some "small", "picture", Some ["size: 64"], Some ["@live"], None)
  = "small: picture(size: 64) @live".
Proof. reflexivity. Qed.

Example print_a_query :
  print (Node (AST.Document
           (Some [Node (AST.OperationDefinition query None None None
                          (Node (AST.SelectionSet
                                   (Some [Node (AST.Field None
                                                  (Node (AST.Name "me"))
                                                  None None None)]))))])))
  = Returns ("{" ++ nl ++ "  me" ++ nl ++ "}" ++ nl).
Proof. reflexivity. Qed.

(** The same block string is printed as it is under the key description and
    indented elsewhere. *)
Example print_a_description :
  print (Node (AST.ScalarTypeDefinition
                 (Some (Node (AST.StringValue "A date" (Some true))))
                 (Node (AST.Name "Date")) None))
  = Returns (quote3 ++ nl ++ "A date" ++ nl ++ quote3 ++ nl ++ "scalar Date")
  /\ print (Node (AST.Argument (Node (AST.Name "note"))
                    (Node (AST.StringValue "A date" (Some true)))))
     = Returns ("note: " ++ quote3 ++ nl ++ "  A date" ++ nl ++ quote3).
Proof. split; reflexivity. Qed.

(* ================================================================= *)
(** ** The block-string renderer *)

(** C1 (as the code has it).  The single-line value made of a space followed
    by hello, rendered with the block flag set, comes out as three double
    quotes, the value with its leading space, and three double quotes: no
    blank line is put before the value and no line feed after it. *)
Theorem StringValue_space_led_hello (k : key) :
  printDocASTReducer.StringValue (" hello", Some true) k
  = quote3 ++ " hello" ++ quote3.
Proof. destruct k; reflexivity. Qed.

(** C1 (as stated) fails: the closing quotes are not put on a line of their
    own after the value. *)
Lemma StringValue_space_led_hello_no_line_feed :
  printDocASTReducer.StringValue (" hello", Some true) KUndefined
  <> quote3 ++ " hello" ++ nl ++ quote3.
Proof. vm_compute. discriminate. Qed.

(** The two branches of the renderer, over what the replacement of the
    triple quotes returns. *)
Lemma printBlockString_cases (value : string) (isDescription : bool) :
  let escaped := replaceAllQuote3 (String BACKSLASH quote3) value in
  (startsBlank value /\ ~ multiLine value ->
   (forall body, escaped = body ++ String DQ "" ->
      printBlockString value isDescription
      = quote3 ++ (body ++ String DQ nl) ++ quote3)
   /\ (~ endsWithQuote escaped ->
      printBlockString value isDescription = quote3 ++ escaped ++ quote3))
  /\ (~ (startsBlank value /\ ~ multiLine value) ->
      printBlockString value isDescription
      = quote3 ++ nl
          ++ (if isDescription then escaped else indentLines escaped)
          ++ nl ++ quote3).
Proof.
  intros escaped. unfold printBlockString. fold escaped. split.
  - intros [Hb Hs]. apply startsBlank_test in Hb. apply singleLine_test in Hs.
    rewrite Hb, Hs. cbn [andb]. split.
    + intros body E. rewrite E, replaceFinalQuote_quote. reflexivity.
    + intros Hq. now rewrite replaceFinalQuote_other.
  - intros Hn.
    destruct (match get 0 value with
              | Some c => Ascii.eqb c " "%char || Ascii.eqb c TAB
              | None => false
              end && (indexOf value LF =? -1)%Z) eqn:E.
    + exfalso. apply Hn. apply andb_true_iff in E. destruct E as [Hb Hs].
      split; [now apply startsBlank_test | now apply singleLine_test].
    + now rewrite indent_lines.
Qed.

(* ================================================================= *)
(** ** The block helper *)

Lemma block_members (a : string) (array : list string) :
  block (Some (a :: array))
  = "{" ++ nl ++ indent (join (Some (a :: array)) nl) ++ nl ++ "}".
Proof. reflexivity. Qed.

(** C7.  On a sequence that is not empty the block helper returns an opening
    brace, a line feed, the members joined by line feeds with every line
    of the result indented by two spaces, a line feed and a closing brace; on
    an empty or an absent sequence it returns the empty string; it never
    returns a pair of braces with nothing between. *)
Theorem block_spec :
  (forall array : list string,
     array <> [] ->
     block (Some array)
     = "{" ++ nl ++ indentLines (join (Some array) nl) ++ nl ++ "}"
     /\ block (Some array)
        = "{" ++ nl ++ indentLines (joined nl array) ++ nl ++ "}")
  /\ (forall array : list string,
       array <> [] ->
       Forall (fun member => member <> "") array ->
       block (Some array)
       = "{" ++ nl ++ String.concat nl (map indentLines array) ++ nl ++ "}")
  /\ block (Some []) = ""
  /\ block None = ""
  /\ (forall maybeArray, block maybeArray <> "{}").
Proof.
  split; [|split; [|split; [|split]]]; try reflexivity.
  - intros [|a array] H; [contradiction|].
    rewrite block_members, indent_lines. split; [reflexivity|].
    now rewrite join_joined.
  - intros [|a array] H Hall; [contradiction|].
    rewrite block_members, (join_all _ _ Hall), (indent_concat _ Hall).
    now rewrite (map_ext _ _ indent_lines).
  - intros [[|a array]|]; discriminate.
Qed.

Lemma block_spec_witness :
  block (Some ["a"; "b" ++ nl ++ "c"])
  = "{" ++ nl ++ "  a" ++ nl ++ "  b" ++ nl ++ "  c" ++ nl ++ "}".
Proof.
  destruct (proj1 block_spec ["a"; "b" ++ nl ++ "c"]) as [E _];
    [discriminate|].
  rewrite E. reflexivity.
Defined.

(** C9.  The block helper looks at the length of the sequence before the
    empty members are dropped: on a sequence that is not empty and holds
    empty strings only, it returns a brace block around one blank line, not
    the empty string. *)
Theorem block_of_empty_members (array : list string) :
  array <> [] ->
  Forall (fun member => member = "") array ->
  block (Some array) = "{" ++ nl ++ nl ++ "}" /\ block (Some array) <> "".
Proof.
  intros Hne Hall. destruct array as [|a array]; [contradiction|].
  rewrite block_members, join_present. cbn [present].
  rewrite (filter_none _ Hall). split; [reflexivity | discriminate].
Qed.

Lemma block_of_empty_members_witness :
  block (Some [""]) = "{" ++ nl ++ nl ++ "}" /\ block (Some [""]) <> "".
Proof.
  apply (block_of_empty_members [""]); [discriminate|].
  constructor; [reflexivity | constructor].
Defined.

(* ================================================================= *)
(** ** Documents *)

(** C10.  A document without definitions prints as the one-character string
    that holds a line feed: the entry ends its text with a line feed whatever
    the definitions are, and here nothing stands before it. *)
Theorem Document_without_definitions :
  printDocASTReducer.Document (Some []) = nl
  /\ String.length (printDocASTReducer.Document (Some [])) = 1
  /\ print (Node (AST.Document (Some []))) = Returns nl
  /\ (forall definitions,
        exists body, printDocASTReducer.Document definitions = body ++ nl).
Proof.
  repeat split. intros definitions. eexists. reflexivity.
Qed.

(* ================================================================= *)
(** ** More on [join] and [wrap] *)

Lemma present_nonEmpty (maybeArray : option (list string)) :
  Forall (fun m => m <> "") (present maybeArray).
Proof.
  destruct maybeArray as [array|]; [|constructor].
  apply Forall_forall. intros x Hx. apply filter_In in Hx.
  now apply nonEmpty_true.
Qed.

Lemma join_eq_nil (maybeArray : option (list string)) (separator : string) :
  join maybeArray separator = "" <-> present maybeArray = [].
Proof.
  rewrite join_present. split.
  - apply concat_eq_nil, present_nonEmpty.
  - now intros ->.
Qed.

Lemma join_optional (l : list (option string)) (separator : string) :
  join (Some l) separator
  = String.concat separator (filter nonEmpty (map textOf l)).
Proof.
  unfold join. f_equal.
  induction l as [|[s|] l IH]; [reflexivity| |exact IH].
  change (filter truthy (Some s :: l))
    with (if nonEmpty s then Some s :: filter truthy l else filter truthy l).
  change (filter nonEmpty (map textOf (Some s :: l)))
    with (if nonEmpty s then s :: filter nonEmpty (map textOf l)
          else filter nonEmpty (map textOf l)).
  destruct (nonEmpty s); [|exact IH].
  change (map asString (Some s :: filter truthy l))
    with (s :: map asString (filter truthy l)).
  now rewrite IH.
Qed.

Lemma join_without_last_empty (l : list string) (separator : string) :
  join (Some (l ++ [""])%list) separator = join (Some l) separator.
Proof.
  rewrite !join_present. cbn [present]. rewrite filter_app.
  cbn [filter nonEmpty String.eqb negb]. now rewrite app_nil_r.
Qed.

Lemma wrap_join (start : string) (maybeArray : option (list string))
  (separator end_ : string) :
  wrap start (join maybeArray separator) (Some end_)
  = match present maybeArray with
    | [] => ""
    | items => start ++ String.concat separator items ++ end_
    end.
Proof.
  unfold wrap. cbn [truthy string_MaybeString option_MaybeString asString].
  fold (nonEmpty (join maybeArray separator)). fold (nonEmpty end_).
  destruct (nonEmpty (join maybeArray separator)) eqn:E.
  - apply nonEmpty_true in E. rewrite join_eq_nil in E.
    rewrite join_present.
    destruct (present maybeArray) as [|i items]; [contradiction|].
    destruct (nonEmpty end_) eqn:Ee; [reflexivity|].
    apply nonEmpty_false in Ee. now rewrite Ee.
  - apply nonEmpty_false in E. rewrite join_eq_nil in E. now rewrite E.
Qed.

(* ================================================================= *)
(** ** Union types *)

Lemma union_without_members (keyword name : string)
  (directives : option (list string)) :
  join (Some [keyword; name; join directives " "; ""]) " "
  = spaced [keyword; name; join directives " "].
Proof.
  change [keyword; name; join directives " "; ""]
    with ([keyword; name; join directives " "] ++ [""])%list.
  rewrite join_without_last_empty. apply join_joined.
Qed.

(** C6.  A union type definition, and likewise a union type extension,
    without member types is rendered without the segment that starts with
    the equals sign; with two member types it is rendered with the segment
    made of the equals sign and the members separated by a vertical bar.
    The definition named Name with members A and B is [union Name = A | B]. *)
Theorem union_member_types
  (description : option string) (name : string)
  (directives : option (list string)) :
  (forall types,
     types = None \/ types = Some [] ->
     printDocASTReducer.UnionTypeDefinition
       (description, (name, directives, types))
     = Returns (join (Some [description;
                            str (spaced ["union"; name;
                                         join directives " "])]) nl)
     /\ printDocASTReducer.UnionTypeExtension (name, directives, types)
        = spaced ["extend union"; name; join directives " "])
  /\ (forall a b,
        a <> "" -> b <> "" ->
        printDocASTReducer.UnionTypeDefinition
          (description, (name, directives, Some [a; b]))
        = Returns (join (Some [description;
                               str (spaced ["union"; name;
                                            join directives " ";
                                            "= " ++ a ++ " | " ++ b])]) nl)
        /\ printDocASTReducer.UnionTypeExtension
             (name, directives, Some [a; b])
           = spaced ["extend union"; name; join directives " ";
                     "= " ++ a ++ " | " ++ b])
  /\ printDocASTReducer.UnionTypeDefinition (None, ("Name", None, Some []))
     = Returns "union Name"
  /\ printDocASTReducer.UnionTypeDefinition
       (None, ("Name", None, Some ["A"; "B"]))
     = Returns "union Name = A | B"
  /\ printDocASTReducer.UnionTypeExtension ("Name", None, Some ["A"; "B"])
     = "extend union Name = A | B".
Proof.
  split; [|split; [|repeat split]].
  - intros types [-> | ->];
      unfold printDocASTReducer.UnionTypeDefinition,
        printDocASTReducer.UnionTypeExtension, addDescription, bind;
      cbn [List.length Nat.eqb negb];
      rewrite !union_without_members; split; reflexivity.
  - intros a b Ha Hb.
    unfold printDocASTReducer.UnionTypeDefinition,
      printDocASTReducer.UnionTypeExtension, addDescription, bind.
    cbn [List.length Nat.eqb negb].
    rewrite (join_all [a; b]) by (repeat constructor; assumption).
    cbn [String.concat]. rewrite !join_joined. split; reflexivity.
Qed.

Lemma union_member_types_witness :
  printDocASTReducer.UnionTypeDefinition
    (Some "Pets", ("Pet", Some ["@live"], None))
  = Returns ("Pets" ++ nl ++ "union Pet @live")
  /\ printDocASTReducer.UnionTypeExtension
       ("Pet", None, Some ["Cat"; "Dog"])
     = "extend union Pet = Cat | Dog".
Proof.
  split.
  - apply (proj1 (union_member_types (Some "Pets") "Pet" (Some ["@live"]))
             None).
    now left.
  - apply (proj1 (proj2 (union_member_types None "Pet" None)) "Cat" "Dog");
      discriminate.
Defined.

(* ================================================================= *)
(** ** Operation definitions *)

Lemma truthy_optional (maybeString : option string) :
  truthy maybeString = false <-> absentOrEmpty maybeString.
Proof.
  unfold absentOrEmpty. destruct maybeString as [s|].
  - cbn [truthy option_MaybeString]. fold (nonEmpty s).
    rewrite nonEmpty_false. split; [intros ->; now right|].
    intros [H|H]; [discriminate | now injection H].
  - split; [now left | reflexivity].
Qed.

Lemma truthy_join (maybeArray : option (list string)) (separator : string) :
  truthy (join maybeArray separator) = false <-> present maybeArray = [].
Proof.
  cbn [truthy string_MaybeString].
  fold (nonEmpty (join maybeArray separator)).
  rewrite nonEmpty_false. apply join_eq_nil.
Qed.

Lemma wrap_parenthesized (maybeArray : option (list string)) :
  wrap "(" (join maybeArray ", ") (Some ")")
  = parenthesized (present maybeArray).
Proof.
  rewrite wrap_join. unfold parenthesized.
  now destruct (present maybeArray).
Qed.

Lemma truthy_parenthesized (items : list string) :
  truthy (parenthesized items) = false <-> items = [].
Proof.
  destruct items; cbn; split; congruence.
Qed.

Lemma operation_is_query (operation : OperationTypeNode) :
  (operationText operation =? "query") = true <-> operation = query.
Proof. destruct operation; cbn; split; congruence. Qed.

Lemma join_adjacent (name : option string) (text : string) :
  join (Some [name; str text]) "" = textOf name ++ text.
Proof.
  rewrite join_optional. cbn [map textOf str].
  destruct name as [[|a s]|], text as [|b text]; cbn;
    rewrite ?append_nil_r; reflexivity.
Qed.

(** C5.  An operation definition whose operation is the default one, query,
    and whose name, directives and variable definitions are all absent or
    empty prints as its selection set and nothing else.  Every other
    operation definition prints as the operation keyword, the name directly
    followed by the variable definitions between parentheses, the directives
    and the selection set, with one space between the parts that are not
    empty and nothing for the parts that are. *)
Theorem OperationDefinition_forms
  (operation : OperationTypeNode) (name : option string)
  (variableDefinitions directives : option (list string))
  (selectionSet : string) :
  let shorthand :=
    operation = query /\ absentOrEmpty name
    /\ present directives = [] /\ present variableDefinitions = [] in
  (shorthand ->
   printDocASTReducer.OperationDefinition
     (operation, name, variableDefinitions, directives, selectionSet)
   = selectionSet)
  /\ (~ shorthand ->
      printDocASTReducer.OperationDefinition
        (operation, name, variableDefinitions, directives, selectionSet)
      = spaced [operationText operation;
                textOf name ++ parenthesized (present variableDefinitions);
                String.concat " " (present directives);
                selectionSet]).
Proof.
  intros shorthand. unfold printDocASTReducer.OperationDefinition.
  rewrite wrap_parenthesized.
  destruct (negb (truthy name) && negb (truthy (join directives " "))
            && negb (truthy (parenthesized (present variableDefinitions)))
            && (operationText operation =? "query")) eqn:E.
  - split; [reflexivity|]. intros H. exfalso. apply H.
    rewrite !andb_true_iff, !negb_true_iff in E.
    destruct E as [[[Hn Hd] Hv] Ho]. repeat split.
    + now apply operation_is_query.
    + now apply truthy_optional.
    + now apply truthy_join in Hd.
    + now apply truthy_parenthesized.
  - split.
    + intros (Ho & Hn & Hd & Hv). exfalso.
      apply operation_is_query in Ho. apply truthy_optional in Hn.
      apply (truthy_join _ " ") in Hd.
      apply truthy_parenthesized in Hv.
      rewrite Ho, Hn, Hd, Hv in E. discriminate E.
    + intros _. rewrite join_adjacent, join_joined.
      now rewrite (join_present directives).
Qed.

Lemma OperationDefinition_forms_witness :
  printDocASTReducer.OperationDefinition
    (query, None, None, Some [], "{ me }") = "{ me }"
  /\ printDocASTReducer.OperationDefinition
       (mutation, Some "Like", Some ["$id: ID"], None, "{ like }")
     = "mutation Like($id: ID) { like }".
Proof.
  split.
  - apply (proj1 (OperationDefinition_forms query None None (Some [])
                    "{ me }")).
    repeat split. now left.
  - apply (proj2 (OperationDefinition_forms mutation (Some "Like")
                    (Some ["$id: ID"]) None "{ like }")).
    intros [H _]. discriminate H.
Defined.

(* ================================================================= *)
(** ** Argument lists of field and directive definitions *)

Lemma Returns_inj {A : Type} (a b : A) : Returns a = Returns b -> a = b.
Proof. congruence. Qed.

Lemma concat_filter_head (separator a : string) (l : list string) :
  a <> "" -> String.concat separator (filter nonEmpty (a :: l)) <> "".
Proof.
  intros Ha. cbn [filter]. rewrite (proj2 (nonEmpty_true a) Ha).
  destruct (filter nonEmpty l); cbn [String.concat]; [exact Ha|].
  intros C. apply append_eq_nil in C. now destruct C.
Qed.

Lemma concat_filter_last (separator a b : string) :
  b <> "" -> String.concat separator (filter nonEmpty [a; b]) <> "".
Proof.
  intros Hb. cbn [filter]. rewrite (proj2 (nonEmpty_true b) Hb).
  destruct (nonEmpty a); cbn [String.concat]; [|exact Hb].
  intros C. apply append_eq_nil in C. destruct C as [_ C].
  apply append_eq_nil in C. now destruct C.
Qed.

Lemma wrap_text (start text end_ : string) :
  text <> "" -> wrap start text (Some end_) = start ++ text ++ end_.
Proof.
  intros H. unfold wrap.
  cbn [truthy string_MaybeString option_MaybeString asString].
  fold (nonEmpty text). fold (nonEmpty end_).
  apply nonEmpty_true in H. rewrite H.
  destruct (nonEmpty end_) eqn:E; [reflexivity|].
  apply nonEmpty_false in E. now rewrite E.
Qed.

(** The argument list, as both entries lay it out: nothing when no argument
    has a text, one line when no argument holds a line feed, and one argument
    after the other otherwise. *)
Lemma arguments_segment (args : list string) :
  (if forallb (fun arg => (indexOf arg LF =? -1)%Z) args
   then wrap "(" (join (Some args) ", ") (Some ")")
   else wrap ("(" ++ nl) (indent (join (Some args) nl)) (Some (nl ++ ")")))
  = match present (Some args) with
    | [] => ""
    | items =>
        if forallb (fun arg => (indexOf arg LF =? -1)%Z) args
        then "(" ++ String.concat ", " items ++ ")"
        else "(" ++ nl ++ String.concat nl (map indentLines items)
                 ++ nl ++ ")"
    end.
Proof.
  destruct (forallb _ args).
  - rewrite wrap_join. now destruct (present (Some args)).
  - rewrite join_present.
    pose proof (present_nonEmpty (Some args)) as Hall.
    destruct (present (Some args)) as [|i items] eqn:E; [reflexivity|].
    rewrite wrap_text.
    + rewrite (indent_concat _ Hall), (map_ext _ _ indent_lines).
      now rewrite !append_assoc.
    + apply indent_not_nil. intros C. apply concat_eq_nil in C; congruence.
Qed.

(** C4.  In a field definition and in a directive definition whose argument
    list is not empty: when no rendered argument holds a line feed the
    arguments stand on one line, separated by a comma and a space, between
    parentheses; when some rendered argument holds a line feed each argument
    stands on lines of its own, indented by two spaces, and the parentheses
    stand on lines of their own: the opening one ends the line of the name
    and the closing one starts the line after the last argument.  (A rendered
    argument is never the empty string.) *)
Theorem argument_layout
  (description : option string) (name type : string) (args : list string)
  (directives locations : option (list string)) :
  args <> [] ->
  Forall (fun arg => arg <> "") args ->
  let fieldWith segment :=
    Returns (join (Some [description;
                         str (name ++ segment ++ ": " ++ type
                              ++ wrap " " (join directives " ") None)]) nl) in
  let directiveWith segment :=
    Returns (join (Some [description;
                         str ("directive @" ++ name ++ segment ++ " on "
                              ++ join locations " | ")]) nl) in
  (Forall (fun arg => ~ multiLine arg) args ->
   printDocASTReducer.FieldDefinition
     (description, (name, Some args, type, directives))
   = fieldWith ("(" ++ String.concat ", " args ++ ")")
   /\ printDocASTReducer.DirectiveDefinition
        (description, (name, Some args, locations))
      = directiveWith ("(" ++ String.concat ", " args ++ ")"))
  /\ (Exists multiLine args ->
      printDocASTReducer.FieldDefinition
        (description, (name, Some args, type, directives))
      = fieldWith ("(" ++ nl ++ String.concat nl (map indentLines args)
                       ++ nl ++ ")")
      /\ printDocASTReducer.DirectiveDefinition
           (description, (name, Some args, locations))
         = directiveWith ("(" ++ nl ++ String.concat nl (map indentLines args)
                              ++ nl ++ ")")).
Proof.
  intros Hne Hall fieldWith directiveWith.
  unfold printDocASTReducer.FieldDefinition,
    printDocASTReducer.DirectiveDefinition, addDescription, every, bind.
  rewrite arguments_segment. cbn [present]. rewrite (filter_all _ Hall).
  destruct args as [|arg args]; [contradiction|].
  split.
  - intros H. apply every_singleLine in H. rewrite H. split; reflexivity.
  - intros H. apply some_multiLine in H. rewrite H. split; reflexivity.
Qed.

Lemma argument_layout_witness :
  printDocASTReducer.FieldDefinition
    (None, ("pet", Some ["id: ID"; "kind: Kind"], "Pet", None))
  = Returns "pet(id: ID, kind: Kind): Pet"
  /\ printDocASTReducer.DirectiveDefinition
       (None,
        ("tag", Some ["About" ++ nl ++ "name: String"; "id: ID"],
         Some ["FIELD"]))
     = Returns ("directive @tag(" ++ nl ++ "  About" ++ nl
                ++ "  name: String" ++ nl ++ "  id: ID" ++ nl
                ++ ") on FIELD").
Proof.
  split.
  - apply (proj1 (argument_layout None "pet" "Pet" ["id: ID"; "kind: Kind"]
                    None None ltac:(discriminate)
                    ltac:(repeat constructor; discriminate))).
    repeat constructor; intros H; vm_compute in H; intuition discriminate.
  - apply (proj2 (argument_layout None "tag" ""
                    ["About" ++ nl ++ "name: String"; "id: ID"]
                    None (Some ["FIELD"]) ltac:(discriminate)
                    ltac:(repeat constructor; discriminate))).
    left. vm_compute. intuition.
Defined.

(** The entry that renders an argument definition never returns the empty
    string. *)
Lemma InputValueDefinition_not_empty
  (description : option string) (name type : string)
  (defaultValue : option string) (directives : option (list string))
  (text : string) :
  printDocASTReducer.InputValueDefinition
    (description, (name, type, defaultValue, directives)) = Returns text ->
  text <> "".
Proof.
  unfold printDocASTReducer.InputValueDefinition, addDescription, bind.
  intros E. apply Returns_inj in E. rewrite <- E. clear E.
  rewrite join_optional. cbn [map textOf str].
  apply concat_filter_last. rewrite join_present. cbn [present].
  apply concat_filter_head. intros C. apply append_eq_nil in C.
  destruct C as [_ C]. discriminate C.
Qed.

(* ================================================================= *)
(** ** Entries that raise *)

(** An entry raises exactly when it is the entry of a field definition or of
    a directive definition and the argument list is absent; on every other
    node it returns a string. *)
Lemma leave_outcome (n : AST.node string) (k : key) :
  if lacksArguments n
  then leave n k = Throws TypeError
  else exists text, leave n k = Returns text.
Proof.
  destruct n; cbn [lacksArguments]; try (eexists; reflexivity);
    destruct arguments; cbn [lacksArguments];
    first [reflexivity | eexists; reflexivity].
Qed.

(** C3 (where the code departs from it).  The entries of a field definition
    and of a directive definition raise a type error when the argument list
    is absent, and so does [print] on such a tree; with an empty argument
    list they return, as the entry of a field does without arguments. *)
Theorem definition_without_arguments_raises :
  printDocASTReducer.FieldDefinition (None, ("f", None, "T", None))
  = Throws TypeError
  /\ printDocASTReducer.DirectiveDefinition
       (None, ("d", None, Some ["FIELD"]))
     = Throws TypeError
  /\ print (Node (AST.FieldDefinition None (Node (AST.Name "f")) None
                    (Node (AST.NamedType (Node (AST.Name "T")))) None))
     = Throws TypeError
  /\ printDocASTReducer.FieldDefinition (None, ("f", Some [], "T", None))
     = Returns "f: T"
  /\ printDocASTReducer.DirectiveDefinition
       (None, ("d", Some [], Some ["FIELD"]))
     = Returns "directive @d on FIELD"
  /\ printDocASTReducer.Field (None, "f", None, None, None) = "f".
Proof. repeat split. Qed.

(* ================================================================= *)
(** ** Walkers *)

Section Runs.

Variables run1 run2 : key -> ast -> result string.

Lemma visitOptional_ext (o : option ast) :
  option_all ast (agree run1 run2) o ->
  forall name, visitOptional run1 name o = visitOptional run2 name o.
Proof.
  intros H name. destruct H as [c Hc|]; [|reflexivity].
  cbn [visitOptional]. now rewrite Hc.
Qed.

Lemma visitArrayFrom_ext (array : list ast) :
  list_all ast (agree run1 run2) array ->
  forall i, visitArrayFrom run1 i array = visitArrayFrom run2 i array.
Proof.
  induction 1 as [|c Hc cs Hcs IH]; intros i; [reflexivity|].
  cbn [visitArrayFrom]. now rewrite Hc, IH.
Qed.

Lemma visitChildren_ext (o : option (list ast)) :
  option_all (list ast) (list_all ast (agree run1 run2)) o ->
  visitChildren run1 o = visitChildren run2 o.
Proof.
  intros H. destruct H as [array Harray|]; [|reflexivity].
  cbn [visitChildren]. unfold visitArray.
  now rewrite (visitArrayFrom_ext array Harray).
Qed.

Lemma traverse_ext (n : AST.node ast) :
  node_all ast (agree run1 run2) n -> traverse run1 n = traverse run2 n.
Proof.
  intros H. destruct H; cbn [traverse]; unfold visitChild;
    repeat match goal with
      | H : option_all _ (list_all _ _) _ |- _ =>
          rewrite (visitChildren_ext _ H); clear H
      | H : option_all _ (agree _ _) _ |- _ =>
          rewrite (visitOptional_ext _ H); clear H
      | H : agree _ _ _ |- _ => rewrite H; clear H
      end;
    reflexivity.
Qed.

(** Two runs that follow the contract yield the same outcome everywhere. *)
Lemma postOrder_unique :
  postOrder run1 -> postOrder run2 ->
  forall (root : ast) (k : key), run1 k root = run2 k root.
Proof.
  intros H1 H2 root. change (agree run1 run2 root).
  induction root as [n IH] using ast_ind. intros k.
  rewrite H1, H2. now rewrite (traverse_ext n IH).
Qed.

End Runs.

Lemma walk_postOrder : postOrder (walk leave).
Proof. intros k n. reflexivity. Qed.

(* ================================================================= *)
(** * Further properties of the helpers and of the table *)

(** ** Which entries raise *)

(** X1.  An entry of the table raises, and then a type error, exactly on a
    field definition or a directive definition whose argument list is absent;
    on every other node, whatever fields it lacks, it returns a string. *)
Theorem table_raises_exactly_without_arguments
  (n : AST.node string) (k : key) :
  (leave n k = Throws TypeError <-> lacksArguments n = true)
  /\ ((exists text, leave n k = Returns text) <-> lacksArguments n = false).
Proof.
  pose proof (leave_outcome n k) as H.
  destruct (lacksArguments n).
  - split; split; intros; try reflexivity; try exact H.
    + destruct H0 as [text E]. congruence.
    + discriminate.
  - destruct H as [text E]. split; split; intros; try reflexivity.
    + congruence.
    + discriminate.
    + now exists text.
Qed.

(** ** [join] *)

Lemma filter_nil_all_empty (l : list string) :
  filter nonEmpty l = [] <-> Forall (fun member => member = "") l.
Proof.
  split; [|apply filter_none].
  induction l as [|a l IH]; [constructor|].
  cbn [filter]. destruct (nonEmpty a) eqn:E; [discriminate|].
  intros H. constructor; [now apply nonEmpty_false | auto].
Qed.

Lemma filter_nil_all_absent (l : list (option string)) :
  filter nonEmpty (map textOf l) = [] <-> Forall absentOrEmpty l.
Proof.
  rewrite filter_nil_all_empty, Forall_map.
  split; intros H; eapply Forall_impl; try exact H; cbv beta;
    intros [s|]; unfold absentOrEmpty; cbn [textOf].
  - intros ->. now right.
  - intros _. now left.
  - intros [C|C]; [discriminate | now injection C].
  - reflexivity.
Qed.

(** X2.  [join] returns the empty string exactly when the array is absent or
    every member of it is falsy, that is the empty string or, in an array
    that may hold absent fields, [undefined]; this for every separator: a
    separator never stands alone. *)
Theorem join_empty_exactly_without_text (separator : string) :
  (forall array : list string,
     join (Some array) separator = ""
     <-> Forall (fun member => member = "") array)
  /\ (forall array : list (option string),
        join (Some array) separator = ""
        <-> Forall absentOrEmpty array)
  /\ join (@None (list string)) separator = ""
  /\ join (@None (list (option string))) separator = "".
Proof.
  split; [|split; [|split; reflexivity]].
  - intros array. rewrite join_eq_nil. apply filter_nil_all_empty.
  - intros array. rewrite join_optional, <- filter_nil_all_absent.
    split; [|now intros ->].
    apply concat_eq_nil, filter_nonEmpty.
Qed.

Lemma joined_single (separator part : string) :
  joined separator [part] = part.
Proof. destruct part; reflexivity. Qed.

Lemma joined_pair (separator a b : string) :
  joined separator [a; b]
  = if nonEmpty a then if nonEmpty b then a ++ separator ++ b else a else b.
Proof. destruct a, b; reflexivity. Qed.

Lemma nonEmpty_append (a b : string) :
  nonEmpty a = true -> nonEmpty (a ++ b) = true.
Proof. destruct a; [discriminate | reflexivity]. Qed.

Lemma joined_cons (separator a : string) (l : list string) :
  joined separator (a :: l)
  = if nonEmpty a
    then if nonEmpty (joined separator l)
         then a ++ separator ++ joined separator l
         else a
    else joined separator l.
Proof. reflexivity. Qed.

Lemma joined_app (separator : string) (l1 l2 : list string) :
  joined separator (l1 ++ l2)
  = joined separator [joined separator l1; joined separator l2].
Proof.
  induction l1 as [|a l1 IH].
  - rewrite joined_pair. reflexivity.
  - change ((a :: l1) ++ l2)%list with (a :: (l1 ++ l2))%list.
    rewrite (joined_cons separator a (l1 ++ l2)), IH, !joined_pair.
    rewrite (joined_cons separator a l1).
    destruct (nonEmpty a) eqn:Ea;
      destruct (nonEmpty (joined separator l1)) eqn:E1;
      destruct (nonEmpty (joined separator l2)) eqn:E2;
      rewrite ?Ea, ?E1, ?E2, ?nonEmpty_append by assumption;
      rewrite ?Ea, ?E1, ?E2, ?append_assoc; reflexivity.
Qed.

(** X3.  Joins nest: joining the joins of two arrays gives the join of the
    two arrays put end to end, when the separator is the same; an array
    without text leaves no separator behind. *)
Theorem join_of_joins (l1 l2 : list string) (separator : string) :
  join (Some [join (Some l1) separator; join (Some l2) separator]) separator
  = join (Some (l1 ++ l2)%list) separator.
Proof. rewrite !join_joined. symmetry. apply joined_app. Qed.

(** ** [wrap] *)

(** X4.  [wrap] returns the empty string exactly when the text it is given
    is absent or empty, whatever start and end are; otherwise it returns the
    start, the text and the end, an omitted end counting as empty. *)
Theorem wrap_empty_exactly_without_text
  (start : string) (end_ : option string) :
  (forall text : string,
     (wrap start text end_ = "" <-> text = "")
     /\ (text <> "" -> wrap start text end_ = start ++ text ++ textOf end_))
  /\ (forall maybeString : option string,
        (wrap start maybeString end_ = "" <-> absentOrEmpty maybeString)
        /\ (~ absentOrEmpty maybeString ->
            wrap start maybeString end_
            = start ++ textOf maybeString ++ textOf end_)).
Proof.
  assert (Hend : (if truthy end_ then asString end_ else "") = textOf end_).
  { destruct end_ as [[|c e]|]; reflexivity. }
  assert (Hne : forall text, text <> "" ->
                start ++ text ++ textOf end_ <> "").
  { intros text Ht C. apply append_eq_nil in C. destruct C as [_ C].
    apply append_eq_nil in C. now destruct C. }
  split.
  - intros text. unfold wrap. rewrite Hend.
    cbn [truthy string_MaybeString asString]. fold (nonEmpty text).
    destruct (nonEmpty text) eqn:E.
    + apply nonEmpty_true in E. split; [|reflexivity].
      split; [intros C; now apply Hne in C | contradiction].
    + apply nonEmpty_false in E. split; [tauto | contradiction].
  - intros maybeString. unfold wrap. rewrite Hend.
    destruct (truthy maybeString) eqn:E.
    + assert (Hn : ~ absentOrEmpty maybeString).
      { intros C. apply truthy_optional in C. congruence. }
      destruct maybeString as [text|]; [|discriminate E].
      cbn [asString option_MaybeString textOf].
      split; [|reflexivity]. split; [|contradiction].
      intros C. apply Hne in C; [contradiction|].
      intros ->. apply Hn. now right.
    + apply truthy_optional in E. split; [tauto | contradiction].
Qed.

(** ** [indent] *)

Lemma replaceAll_prefixes (prefix s : string) :
  replaceAll LF (nl ++ prefix) s
  = match splitLF s with
    | l :: ls => String.concat nl (l :: map (append prefix) ls)
    | [] => ""
    end.
Proof.
  induction s as [|a s IH]; [reflexivity|].
  pose proof (splitLF_not_nil s) as Hne.
  cbn [replaceAll splitLF].
  destruct (Ascii.eqb a LF).
  - rewrite IH. destruct (splitLF s) as [|l ls]; [contradiction|].
    change (map (append prefix) (l :: ls))
      with ((prefix ++ l) :: map (append prefix) ls).
    rewrite concat_cons_cons, concat_cons_prefix, append_assoc. reflexivity.
  - rewrite IH. destruct (splitLF s) as [|l ls]; [contradiction|].
    change (String a l) with (String a "" ++ l).
    rewrite concat_cons_prefix. reflexivity.
Qed.

Lemma replaceAll_twice (s : string) :
  replaceAll LF (nl ++ "  ") (replaceAll LF (nl ++ "  ") s)
  = replaceAll LF (nl ++ "    ") s.
Proof.
  induction s as [|a s IH]; [reflexivity|].
  cbn [replaceAll]. destruct (Ascii.eqb a LF) eqn:E.
  - rewrite replaceAll_app, IH. reflexivity.
  - cbn [replaceAll]. now rewrite E, IH.
Qed.

(** X5.  Indentation adds up: a text indented twice, as the members of a
    block inside a block are, has every line prefixed with four spaces. *)
Theorem indent_twice (s : string) :
  indent (indent s) = String.concat nl (map (append "    ") (lines s)).
Proof.
  destruct s as [|a s]; [reflexivity|].
  assert (Hs : String a s <> "") by discriminate.
  rewrite (indent_nonEmpty (indent (String a s)))
    by now apply indent_not_nil.
  rewrite (indent_nonEmpty _ Hs), replaceAll_app.
  change (replaceAll LF (nl ++ "  ") "  ") with "  ".
  rewrite replaceAll_twice, <- append_assoc.
  change ("  " ++ "  ") with "    ".
  rewrite replaceAll_prefixes.
  unfold lines.
  pose proof (splitLF_not_nil (String a s)) as Hne.
  destruct (splitLF (String a s)) as [|l ls]; [contradiction|].
  change (map (append "    ") (l :: ls))
    with (("    " ++ l) :: map (append "    ") ls).
  now rewrite concat_cons_prefix.
Qed.

Lemma dropIndentAfterLF_replaceAll (s : string) :
  dropIndentAfterLF (replaceAll LF (nl ++ "  ") s) = s.
Proof.
  induction s as [|a s IH]; [reflexivity|].
  cbn [replaceAll]. destruct (Ascii.eqb a LF) eqn:E.
  - apply Ascii.eqb_eq in E. subst a.
    change ((nl ++ "  ") ++ replaceAll LF (nl ++ "  ") s)
      with (String LF
              (String " " (String " " (replaceAll LF (nl ++ "  ") s)))).
    cbn [dropIndentAfterLF]. rewrite Ascii.eqb_refl. now rewrite IH.
  - cbn [dropIndentAfterLF]. now rewrite E, IH.
Qed.

(** X6.  Indentation loses nothing: taking the two characters off the start
    of an indented text and off the start of each further line gives the
    text back, so two texts with the same indentation are the same text. *)
Theorem dedent_indent (s : string) :
  dedent (indent s) = s
  /\ (forall t, indent s = indent t -> s = t).
Proof.
  assert (H : forall u, dedent (indent u) = u).
  { intros [|a u]; [reflexivity|].
    rewrite indent_nonEmpty by discriminate.
    change (dedent ("  " ++ replaceAll LF (nl ++ "  ") (String a u)))
      with (dropIndentAfterLF (replaceAll LF (nl ++ "  ") (String a u))).
    apply dropIndentAfterLF_replaceAll. }
  split; [apply H|].
  intros t E. rewrite <- (H s), <- (H t). now rewrite E.
Qed.

(** ** The escaping of block strings *)

Lemma escape_quote3 (s : string) :
  replaceAllQuote3 (String BACKSLASH quote3) (quote3 ++ s)
  = String BACKSLASH quote3
    ++ replaceAllQuote3 (String BACKSLASH quote3) s.
Proof. reflexivity. Qed.

(** A text either starts with three double quotes or is escaped one
    character at a time. *)
Lemma escape_step (a : ascii) (s : string) :
  (exists rest, String a s = quote3 ++ rest)
  \/ replaceAllQuote3 (String BACKSLASH quote3) (String a s)
     = String a (replaceAllQuote3 (String BACKSLASH quote3) s).
Proof.
  destruct s as [|b [|c s]]; try (right; reflexivity).
  cbn [replaceAllQuote3].
  destruct (Ascii.eqb a DQ && Ascii.eqb b DQ && Ascii.eqb c DQ) eqn:E;
    [left | right; reflexivity].
  rewrite !andb_true_iff, !Ascii.eqb_eq in E. destruct E as [[-> ->] ->].
  now exists s.
Qed.

Lemma escape_head_quote (s t : string) :
  replaceAllQuote3 (String BACKSLASH quote3) s = String DQ t ->
  exists s', s = String DQ s'
             /\ t = replaceAllQuote3 (String BACKSLASH quote3) s'.
Proof.
  destruct s as [|a s]; [discriminate|].
  destruct (escape_step a s) as [[rest E] | E]; rewrite E.
  - rewrite escape_quote3. intros H. discriminate H.
  - intros H. injection H as -> <-. now exists s.
Qed.

Lemma escape_no_quote3_head (s rest : string) :
  replaceAllQuote3 (String BACKSLASH quote3) s <> quote3 ++ rest.
Proof.
  intros H0. pose proof H0 as H.
  apply escape_head_quote in H. destruct H as (s1 & E1 & H). symmetry in H.
  apply escape_head_quote in H. destruct H as (s2 & E2 & H). symmetry in H.
  apply escape_head_quote in H. destruct H as (s3 & E3 & _).
  subst s s1 s2.
  change (String DQ (String DQ (String DQ s3))) with (quote3 ++ s3) in H0.
  rewrite escape_quote3 in H0. discriminate H0.
Qed.

Lemma unescape_step (a : ascii) (t : string) :
  ~ (a = BACKSLASH /\ exists rest, t = quote3 ++ rest) ->
  unescapeQuote3 (String a t) = String a (unescapeQuote3 t).
Proof.
  intros H. destruct t as [|b [|c [|d t]]]; try reflexivity.
  cbn [unescapeQuote3].
  destruct (Ascii.eqb a BACKSLASH && Ascii.eqb b DQ && Ascii.eqb c DQ
            && Ascii.eqb d DQ) eqn:E; [|reflexivity].
  rewrite !andb_true_iff, !Ascii.eqb_eq in E.
  destruct E as [[[-> ->] ->] ->]. exfalso. apply H.
  split; [reflexivity | now exists t].
Qed.

Lemma unescape_escape_bounded (n : nat) :
  forall s, String.length s <= n ->
  unescapeQuote3 (replaceAllQuote3 (String BACKSLASH quote3) s) = s.
Proof.
  induction n as [|n IH]; intros [|a s] Hl; try reflexivity;
    [cbn in Hl; lia|].
  destruct (escape_step a s) as [[rest E] | E]; rewrite E.
  - rewrite escape_quote3.
    change (String BACKSLASH quote3
            ++ replaceAllQuote3 (String BACKSLASH quote3) rest)
      with (String BACKSLASH
              (String DQ
                 (String DQ
                    (String DQ
                       (replaceAllQuote3 (String BACKSLASH quote3) rest))))).
    cbn [unescapeQuote3]. rewrite !Ascii.eqb_refl. cbn [andb].
    rewrite IH; [reflexivity|].
    rewrite E in Hl. cbn in Hl. lia.
  - rewrite unescape_step.
    + rewrite IH; [reflexivity | cbn in Hl; lia].
    + intros [_ [rest C]]. now apply escape_no_quote3_head in C.
Qed.

(** X7.  The escaping of a block string loses nothing: taking out the
    backslash before each escaped triple quote gives the value back, and so
    two values with the same escaped text are the same value. *)
Theorem unescape_escape (value : string) :
  unescapeQuote3 (replaceAllQuote3 (String BACKSLASH quote3) value) = value
  /\ (forall other,
        replaceAllQuote3 (String BACKSLASH quote3) value
        = replaceAllQuote3 (String BACKSLASH quote3) other ->
        value = other).
Proof.
  assert (H : forall v,
             unescapeQuote3 (replaceAllQuote3 (String BACKSLASH quote3) v)
             = v).
  { intros v. now apply (unescape_escape_bounded (String.length v)). }
  split; [apply H|].
  intros other E. rewrite <- (H value), <- (H other). now rewrite E.
Qed.

(** ** The closing quotes of a block string *)




(** ** Fields *)

Lemma wrap_alias (alias : option string) :
  wrap "" alias (Some ": ") = labelled alias.
Proof. destruct alias as [[|c a]|]; reflexivity. Qed.

(** X9.  A field prints as its alias with a colon, its name and its
    arguments between parentheses, written together, then its directives and
    its selection set, with one space between the parts that have a text; a
    field with no alias, no arguments, no directives and no selection set
    prints as its bare name. *)
Theorem Field_parts
  (alias : option string) (name : string)
  (args directives : option (list string)) (selectionSet : option string) :
  printDocASTReducer.Field (alias, name, args, directives, selectionSet)
  = spaced [labelled alias ++ name ++ parenthesized (present args);
            String.concat " " (present directives);
            textOf selectionSet]
  /\ (absentOrEmpty alias -> present args = [] -> present directives = [] ->
      absentOrEmpty selectionSet ->
      printDocASTReducer.Field (alias, name, args, directives, selectionSet)
      = name).
Proof.
  assert (E : printDocASTReducer.Field
                (alias, name, args, directives, selectionSet)
              = spaced [labelled alias ++ name
                          ++ parenthesized (present args);
                        String.concat " " (present directives);
                        textOf selectionSet]).
  { unfold printDocASTReducer.Field.
    rewrite join_optional, concat_filter_joined. cbn [map textOf str].
    now rewrite wrap_alias, wrap_parenthesized, join_present. }
  split; [exact E|].
  intros Ha Hargs Hd Hs. rewrite E, Hargs, Hd.
  assert (Hl : labelled alias = "").
  { destruct Ha as [-> | ->]; reflexivity. }
  assert (Ht : textOf selectionSet = "").
  { destruct Hs as [-> | ->]; reflexivity. }
  rewrite Hl, Ht. cbn [parenthesized String.concat append].
  rewrite append_nil_r. destruct name; reflexivity.
Qed.

Lemma Field_parts_witness :
  printDocASTReducer.Field (Some "", "id", Some [""], None, None) = "id".
Proof.
  apply (proj2 (Field_parts (Some "") "id" (Some [""]) None None));
    try reflexivity; [now right | now left].
Defined.

(** ** Definitions and extensions *)

Lemma join_no_description (body : string) :
  join (Some [@None string; str body]) nl = body.
Proof.
  rewrite join_optional, concat_filter_joined. cbn [map textOf str].
  now rewrite joined_pair.
Qed.

Lemma joined_prefix (separator prefix keyword : string)
  (rest : list string) :
  keyword <> "" ->
  joined separator ((prefix ++ keyword) :: rest)
  = prefix ++ joined separator (keyword :: rest).
Proof.
  intros H. rewrite !joined_cons.
  assert (H1 : nonEmpty keyword = true) by now apply nonEmpty_true.
  assert (H2 : nonEmpty (prefix ++ keyword) = true).
  { apply nonEmpty_true. intros C. apply append_eq_nil in C.
    now destruct C. }
  rewrite H1, H2. destruct (nonEmpty (joined separator rest));
    [now rewrite append_assoc | reflexivity].
Qed.

Ltac extension_of_definition keyword :=
  eexists; split;
  [ unfold addDescription, bind; rewrite join_no_description; reflexivity
  | rewrite !join_joined;
    apply (joined_prefix " " "extend " keyword); discriminate ].

(** X10.  A type extension prints as the word extend, a space, and what the
    definition of the same kind with the same fields and no description
    prints; so does a schema extension. *)
Theorem extension_prints_extended_definition :
  (forall name directives,
     exists text,
       printDocASTReducer.ScalarTypeDefinition (None, (name, directives))
       = Returns text
       /\ printDocASTReducer.ScalarTypeExtension (name, directives)
          = "extend " ++ text)
  /\ (forall name interfaces directives fields,
        exists text,
          printDocASTReducer.ObjectTypeDefinition
            (None, (name, interfaces, directives, fields))
          = Returns text
          /\ printDocASTReducer.ObjectTypeExtension
               (name, interfaces, directives, fields)
             = "extend " ++ text)
  /\ (forall name directives fields,
        exists text,
          printDocASTReducer.InterfaceTypeDefinition
            (None, (name, directives, fields))
          = Returns text
          /\ printDocASTReducer.InterfaceTypeExtension
               (name, directives, fields)
             = "extend " ++ text)
  /\ (forall name directives types,
        exists text,
          printDocASTReducer.UnionTypeDefinition
            (None, (name, directives, types))
          = Returns text
          /\ printDocASTReducer.UnionTypeExtension (name, directives, types)
             = "extend " ++ text)
  /\ (forall name directives values,
        exists text,
          printDocASTReducer.EnumTypeDefinition
            (None, (name, directives, values))
          = Returns text
          /\ printDocASTReducer.EnumTypeExtension (name, directives, values)
             = "extend " ++ text)
  /\ (forall name directives fields,
        exists text,
          printDocASTReducer.InputObjectTypeDefinition
            (None, (name, directives, fields))
          = Returns text
          /\ printDocASTReducer.InputObjectTypeExtension
               (name, directives, fields)
             = "extend " ++ text)
  /\ (forall directives operationTypes,
        printDocASTReducer.SchemaExtension (directives, operationTypes)
        = "extend "
          ++ printDocASTReducer.SchemaDefinition (directives, operationTypes)).
Proof.
  repeat split; intros.
  - unfold printDocASTReducer.ScalarTypeDefinition,
      printDocASTReducer.ScalarTypeExtension.
    extension_of_definition "scalar".
  - unfold printDocASTReducer.ObjectTypeDefinition,
      printDocASTReducer.ObjectTypeExtension.
    extension_of_definition "type".
  - unfold printDocASTReducer.InterfaceTypeDefinition,
      printDocASTReducer.InterfaceTypeExtension.
    extension_of_definition "interface".
  - unfold printDocASTReducer.UnionTypeDefinition,
      printDocASTReducer.UnionTypeExtension.
    extension_of_definition "union".
  - unfold printDocASTReducer.EnumTypeDefinition,
      printDocASTReducer.EnumTypeExtension.
    extension_of_definition "enum".
  - unfold printDocASTReducer.InputObjectTypeDefinition,
      printDocASTReducer.InputObjectTypeExtension.
    extension_of_definition "input".
  - unfold printDocASTReducer.SchemaDefinition,
      printDocASTReducer.SchemaExtension.
    rewrite !join_joined.
    apply (joined_prefix " " "extend " "schema"). discriminate.
Qed.

(** ** Descriptions *)

(** X11.  [addDescription] puts the description and a line feed before what
    the callback returns.  Without a description, or with an empty one, the
    callback's text is returned as it is; when the callback returns the empty
    string the description is returned as it is, with no line feed after it;
    and an exception of the callback is passed on. *)
Theorem addDescription_cases
  (N : Type) (cb : N -> result string)
  (description : option string) (node : N) :
  (forall e, cb node = Throws e ->
             addDescription cb (description, node) = Throws e)
  /\ (forall body,
        cb node = Returns body -> absentOrEmpty description ->
        addDescription cb (description, node) = Returns body)
  /\ (forall d body,
        cb node = Returns body -> description = Some d ->
        d <> "" -> body <> "" ->
        addDescription cb (description, node) = Returns (d ++ nl ++ body))
  /\ (forall d,
        cb node = Returns "" -> description = Some d ->
        addDescription cb (description, node) = Returns d).
Proof.
  unfold addDescription, bind. repeat split.
  - intros e ->. reflexivity.
  - intros body -> Hd. f_equal.
    rewrite join_optional, concat_filter_joined. cbn [map textOf str].
    rewrite joined_pair.
    destruct Hd as [-> | ->]; reflexivity.
  - intros d body -> -> Hd Hb. f_equal.
    rewrite join_optional, concat_filter_joined. cbn [map textOf str].
    rewrite joined_pair.
    apply nonEmpty_true in Hd, Hb. now rewrite Hd, Hb.
  - intros d -> ->. f_equal.
    rewrite join_optional, concat_filter_joined. cbn [map textOf str].
    rewrite joined_pair. destruct d; reflexivity.
Qed.

Lemma addDescription_cases_witness :
  printDocASTReducer.EnumValueDefinition (Some "North", ("N", None))
  = Returns ("North" ++ nl ++ "N")
  /\ printDocASTReducer.EnumValueDefinition (Some "North", ("", None))
     = Returns "North".
Proof.
  split.
  - apply (proj1 (proj2 (proj2
             (addDescription_cases _
                (fun '((name, directives) : string * option (list string)) =>
                   Returns (join (Some [name; join directives " "]) " "))
                (Some "North") ("N", None))))
             "North" "N");
      try reflexivity; discriminate.
  - apply (proj2 (proj2 (proj2
             (addDescription_cases _
                (fun '((name, directives) : string * option (list string)) =>
                   Returns (join (Some [name; join directives " "]) " "))
                (Some "North") ("", None))))
             "North");
      reflexivity.
Defined.

(** ** Quoted strings *)

Lemma list_ascii_of_string_app (s t : string) :
  list_ascii_of_string (s ++ t)
  = (list_ascii_of_string s ++ list_ascii_of_string t)%list.
Proof. induction s as [|a s IH]; cbn; [reflexivity | now rewrite IH]. Qed.

Lemma quoteJSONUnit_printable (a : ascii) :
  forallb printable (list_ascii_of_string (quoteJSONUnit a)) = true.
Proof.
  destruct a as [[] [] [] [] [] [] [] []]; vm_compute; reflexivity.
Qed.

Lemma quoteJSON_printable (s : string) :
  forallb printable (list_ascii_of_string (quoteJSON s)) = true.
Proof.
  induction s as [|a s IH]; [reflexivity|].
  cbn [quoteJSON]. rewrite list_ascii_of_string_app, forallb_app.
  now rewrite quoteJSONUnit_printable, IH.
Qed.

(** X12.  A string value that is not flagged as a block string prints
    between two double quotes, on one line: the text holds no line feed and
    no other control character, whatever the value holds and wherever the
    node stands. *)
Theorem StringValue_quoted_on_one_line
  (value : string) (isBlockString : option bool) (k : key) :
  isBlockString <> Some true ->
  (exists inner,
     printDocASTReducer.StringValue (value, isBlockString) k
     = String DQ inner ++ String DQ "")
  /\ Forall (fun c => 32 <= nat_of_ascii c)
       (list_ascii_of_string
          (printDocASTReducer.StringValue (value, isBlockString) k))
  /\ ~ multiLine (printDocASTReducer.StringValue (value, isBlockString) k).
Proof.
  intros Hflag.
  assert (E : printDocASTReducer.StringValue (value, isBlockString) k
              = JSON_stringify value).
  { destruct isBlockString as [[|]|]; [contradiction | |]; reflexivity. }
  rewrite E. clear E.
  assert (Hp : forallb printable (list_ascii_of_string (JSON_stringify value))
               = true).
  { unfold JSON_stringify.
    change (String DQ (quoteJSON value) ++ String DQ "")
      with (String DQ (quoteJSON value ++ String DQ "")).
    cbn [list_ascii_of_string forallb].
    rewrite list_ascii_of_string_app, forallb_app, quoteJSON_printable.
    reflexivity. }
  rewrite forallb_forall in Hp.
  split; [now exists (quoteJSON value)|]. split.
  - apply Forall_forall. intros c Hc. apply Hp in Hc.
    unfold printable in Hc. now apply Nat.leb_le in Hc.
  - intros Hm. apply Hp in Hm. discriminate Hm.
Qed.

Lemma StringValue_quoted_on_one_line_witness :
  ~ multiLine
      (printDocASTReducer.StringValue ("a" ++ nl ++ "b", None) KUndefined).
Proof.
  apply (StringValue_quoted_on_one_line ("a" ++ nl ++ "b") None KUndefined).
  discriminate.
Defined.

(** ** Operations other than queries *)

(** X13.  A mutation and a subscription are never printed in the short
    form: the text starts with the keyword of the operation, which is either
    the whole text or is followed by a space. *)
Theorem OperationDefinition_keyword_first
  (operation : OperationTypeNode) (name : option string)
  (variableDefinitions directives : option (list string))
  (selectionSet : string) :
  operation <> query ->
  exists rest,
    printDocASTReducer.OperationDefinition
      (operation, name, variableDefinitions, directives, selectionSet)
    = operationText operation ++ rest
    /\ (rest = "" \/ exists more, rest = " " ++ more).
Proof.
  intros Hop. unfold printDocASTReducer.OperationDefinition.
  assert (E : (operationText operation =? "query") = false).
  { destruct operation; [contradiction | reflexivity | reflexivity]. }
  rewrite E, andb_false_r, join_joined, joined_cons.
  assert (Hk : nonEmpty (operationText operation) = true)
    by now destruct operation.
  rewrite Hk. destruct (nonEmpty (joined " " _)).
  - eexists. split; [reflexivity|]. right. eexists. reflexivity.
  - exists "". split; [now rewrite append_nil_r | now left].
Qed.

Lemma OperationDefinition_keyword_first_witness :
  exists rest,
    printDocASTReducer.OperationDefinition
      (subscription, None, None, None, "{ ticks }")
    = "subscription" ++ rest
    /\ (rest = "" \/ exists more, rest = " " ++ more).
Proof.
  apply (OperationDefinition_keyword_first subscription None None None
           "{ ticks }").
  discriminate.
Defined.

(** ** Fragment definitions *)

(** X14.  A fragment definition is put together without [join]: the text
    always holds the word fragment and the name, the variable definitions
    between parentheses when there are some, the word on between two spaces,
    the type condition, a space, the directives each followed by a space, and
    the selection set; the spaces around the type condition stay whatever
    else is empty. *)
Theorem FragmentDefinition_parts
  (name typeCondition : string)
  (variableDefinitions directives : option (list string))
  (selectionSet : string) :
  printDocASTReducer.FragmentDefinition
    (name, typeCondition, variableDefinitions, directives, selectionSet)
  = "fragment " ++ name ++ parenthesized (present variableDefinitions)
    ++ " on " ++ typeCondition ++ " "
    ++ match present directives with
       | [] => ""
       | items => String.concat " " items ++ " "
       end
    ++ selectionSet.
Proof.
  unfold printDocASTReducer.FragmentDefinition.
  rewrite wrap_parenthesized, wrap_join. reflexivity.
Qed.

(** ** Argument lists without text *)

(** X15.  A field definition and a directive definition whose arguments are
    all empty strings print like the ones with an empty argument list: no
    pair of parentheses with nothing between is printed. *)
Theorem arguments_without_text
  (description : option string) (name type : string) (args : list string)
  (directives locations : option (list string)) :
  Forall (fun arg => arg = "") args ->
  printDocASTReducer.FieldDefinition
    (description, (name, Some args, type, directives))
  = printDocASTReducer.FieldDefinition
      (description, (name, Some [], type, directives))
  /\ printDocASTReducer.DirectiveDefinition
       (description, (name, Some args, locations))
     = printDocASTReducer.DirectiveDefinition
         (description, (name, Some [], locations)).
Proof.
  intros Hall.
  unfold printDocASTReducer.FieldDefinition,
    printDocASTReducer.DirectiveDefinition, addDescription, every, bind.
  rewrite (arguments_segment args), (arguments_segment []).
  cbn [present]. rewrite (filter_none _ Hall). split; reflexivity.
Qed.

Lemma arguments_without_text_witness :
  printDocASTReducer.FieldDefinition (None, ("f", Some [""; ""], "T", None))
  = Returns "f: T".
Proof.
  apply (proj1 (arguments_without_text None "f" "T" [""; ""] None None
                  ltac:(repeat constructor))).
Defined.

(** ** The place of a node *)

(** X16.  What an entry returns depends on the place of the node in its
    parent for one kind of node only, a string value flagged as a block
    string, and there only on whether the place is the property description:
    two places that agree on that give the same outcome on every node. *)
Theorem leave_reads_the_key_for_descriptions_only
  (n : AST.node string) (k1 k2 : key) :
  (key_is k1 "description" = key_is k2 "description" ->
   leave n k1 = leave n k2)
  /\ ((forall value, n <> AST.StringValue value (Some true)) ->
      leave n k1 = leave n k2).
Proof.
  split.
  - intros E. destruct n; try reflexivity.
    destruct block0 as [[|]|]; cbn; [now rewrite E | |]; reflexivity.
  - intros H. destruct n; try reflexivity.
    destruct block0 as [[|]|]; try reflexivity.
    now destruct (H value).
Qed.

Lemma leave_reads_the_key_for_descriptions_only_witness :
  leave (AST.StringValue "About" (Some true)) (KProp "value")
  = leave (AST.StringValue "About" (Some true)) (KIndex 0)
  /\ leave (AST.Name "About") (KProp "description")
     = leave (AST.Name "About") KUndefined.
Proof.
  split.
  - apply (proj1 (leave_reads_the_key_for_descriptions_only
                    (AST.StringValue "About" (Some true))
                    (KProp "value") (KIndex 0))).
    reflexivity.
  - apply (proj2 (leave_reads_the_key_for_descriptions_only
                    (AST.Name "About") (KProp "description") KUndefined)).
    discriminate.
Defined.

(* ================================================================= *)
(** * The block-string renderer and its escaping *)

Lemma escaped_is_replaced (value escaped : string) :
  escapedTripleQuotes value escaped ->
  escaped = replaceAllQuote3 (String BACKSLASH quote3) value.
Proof.
  induction 1 as [|s e H IH|a s e Hn H IH].
  - reflexivity.
  - now rewrite escape_quote3, IH.
  - destruct (escape_step a s) as [[rest E] | E].
    + now destruct (Hn rest).
    + now rewrite E, IH.
Qed.

Lemma replaced_is_escaped_bounded (n : nat) :
  forall value, String.length value <= n ->
  escapedTripleQuotes value
    (replaceAllQuote3 (String BACKSLASH quote3) value).
Proof.
  induction n as [|n IH]; intros [|a s] Hl; try apply escaped_end;
    [cbn in Hl; lia|].
  destruct (escape_step a s) as [[rest E] | E].
  - rewrite E, escape_quote3. apply escaped_quote3, IH.
    rewrite E in Hl. cbn in Hl. lia.
  - rewrite E. apply escaped_other; [|apply IH; cbn in Hl; lia].
    intros rest C. pose proof C as C'.
    rewrite C, escape_quote3 in E. cbn [append] in E. injection E as Ea _.
    change (quote3 ++ rest)
      with (String DQ (String DQ (String DQ rest))) in C'.
    injection C' as Ec _. rewrite Ec in Ea. discriminate Ea.
Qed.

(** C2.  Write escaped for the value with a backslash put before each of
    its triple quotes.  A value that starts with a space or a tab and holds
    no line feed is rendered as three double quotes, escaped with a final
    double quote, when there is one, followed by a line feed, and three
    double quotes; there is no blank line at either end.  Every other value
    is rendered as three double quotes, a line feed, a body, a line feed and
    three double quotes, where the body is escaped for a description and
    escaped with every line indented by two spaces otherwise. *)
Theorem printBlockString_branches (value : string) (isDescription : bool) :
  (exists escaped, escapedTripleQuotes value escaped)
  /\ (forall escaped,
        escapedTripleQuotes value escaped ->
        (startsBlank value /\ ~ multiLine value ->
         (forall body, escaped = body ++ String DQ "" ->
            printBlockString value isDescription
            = quote3 ++ (body ++ String DQ nl) ++ quote3)
         /\ (~ endsWithQuote escaped ->
            printBlockString value isDescription
            = quote3 ++ escaped ++ quote3))
        /\ (~ (startsBlank value /\ ~ multiLine value) ->
            printBlockString value isDescription
            = quote3 ++ nl
                ++ (if isDescription then escaped else indentLines escaped)
                ++ nl ++ quote3)).
Proof.
  split.
  - exists (replaceAllQuote3 (String BACKSLASH quote3) value).
    now apply (replaced_is_escaped_bounded (String.length value)).
  - intros escaped H. apply escaped_is_replaced in H. subst escaped.
    exact (printBlockString_cases value isDescription).
Qed.

Ltac not_three_quotes :=
  let rest := fresh "rest" in
  let C := fresh "C" in
  intros rest C; vm_compute in C; discriminate C.

Lemma printBlockString_branches_witness :
  printBlockString (" a" ++ quote3 ++ "b") false
  = quote3 ++ (" a" ++ String BACKSLASH quote3 ++ "b") ++ quote3
  /\ printBlockString (" say " ++ String DQ "hi" ++ String DQ "") false
     = quote3 ++ ((" say " ++ String DQ "hi") ++ String DQ nl) ++ quote3
  /\ printBlockString ("a" ++ nl ++ quote3) true
     = quote3 ++ nl ++ ("a" ++ nl ++ String BACKSLASH quote3) ++ nl ++ quote3.
Proof.
  split; [|split].
  - apply (proj2 (printBlockString_branches (" a" ++ quote3 ++ "b") false)
             (" a" ++ String BACKSLASH quote3 ++ "b")).
    + apply escaped_other; [not_three_quotes|].
      apply escaped_other; [not_three_quotes|].
      apply (escaped_quote3 "b" "b").
      apply escaped_other; [not_three_quotes | apply escaped_end].
    + split; [eexists; left; reflexivity|].
      intros H; vm_compute in H; intuition discriminate.
    + intros H. apply endsWithQuote_test in H. discriminate H.
  - apply (proj2 (printBlockString_branches
                    (" say " ++ String DQ "hi" ++ String DQ "") false)
             (" say " ++ String DQ "hi" ++ String DQ "")).
    + repeat (apply escaped_other; [not_three_quotes|]). apply escaped_end.
    + split; [eexists; left; reflexivity|].
      intros H; vm_compute in H; intuition discriminate.
    + reflexivity.
  - apply (proj2 (printBlockString_branches ("a" ++ nl ++ quote3) true)
             ("a" ++ nl ++ String BACKSLASH quote3)).
    + apply escaped_other; [not_three_quotes|].
      apply escaped_other; [not_three_quotes|].
      apply (escaped_quote3 "" ""). apply escaped_end.
    + intros [[rest [E|E]] _]; discriminate E.
Defined.
